(** * RDF graph viewer: the temporal graph-state engine

    A shallow embedding of [rdf-graph-viewer/src/main.js] (class
    [RDFGraphViewer]): the URI shortener, the triple projector, the state
    history with its duplicate check, and the timeline controller.

    Conventions.
    - JavaScript strings are modelled as [string]; the only characters the
      code inspects are the ASCII separators [#] and [/], which never occur
      inside a multi-byte encoded character, so splitting at them is the
      same on code units and on bytes.
    - In the viewer model timestamps and slider times are exact rationals
      ([Q]), which is enough for everything that depends only on the order of
      appends, on bounds and on modes; tick indices are integers ([Z]), since
      [seekToTick] stores whatever number it is given.  Which tick a seek by
      time selects depends on rounding, so the scan of [seekToTime] is
      modelled a second time on IEEE binary64 numbers ([Double]).
    - [Map] objects whose iteration order reaches the output are insertion
      ordered association lists ([JSMap]); the type index, which is only
      queried by key, is a [gmap].
    - DOM writes (slider positions, labels, markers, CSS classes) are outputs
      that no method reads back; they are left out.  Calls of [renderState]
      are recorded in a log.
    - The polling loop, the parser and the settings panel are outside the
      model: [addNewState] takes the parsed statements and the clock reading
      as arguments. *)

From Stdlib Require Import Ascii String ZArith QArith Qabs Lia.
From stdpp Require Import gmap strings list.
From Stdlib Require Import SpecFloat.

Local Open Scope string_scope.
Local Open Scope list_scope.
Local Open Scope Z_scope.

(** ** URI shortener *)

Definition isSep (c : ascii) : bool :=
  (Ascii.eqb c "#" || Ascii.eqb c "/")%char.

(** [sepFree s]: every character of [s] is in the class [[^#/]]. *)
Fixpoint sepFree (s : string) : bool :=
  match s with
  | EmptyString => true
  | String c rest => negb (isSep c) && sepFree rest
  end.

Definition nonEmpty (s : string) : bool :=
  match s with EmptyString => false | String _ _ => true end.

(** [uri.match(/[#/]([^#/]+)$/)]: the leftmost position holding a separator
    that is followed by one or more non-separator characters reaching the end
    of the input; the result is capture group 1. *)
Fixpoint regexMatch (s : string) : option string :=
  match s with
  | EmptyString => None
  | String c rest =>
      if isSep c && nonEmpty rest && sepFree rest then Some rest
      else regexMatch rest
  end.

Definition shortenURI (uri : string) : string :=
  match regexMatch uri with
  | Some group1 => group1
  | None => uri
  end.

(** ** Statements, as the N3 parser hands them over *)

Module N3.
Inductive TermType := NamedNode | BlankNode | Literal | VariableTerm | DefaultGraph.

Record Term := mkTerm { termType : TermType; value : string }.

Record Triple := mkTriple { subject : Term; predicate : Term; object : Term }.

Definition isNamedNode (t : Term) : bool :=
  match termType t with NamedNode => true | _ => false end.
End N3.

(** ** Graph data *)

(** A node object.  [isType] is the optional key set on synthesized type
    nodes.  [index] is absent on a freshly projected node; the force
    simulation assigns it (together with the coordinates [x], [y], [vx],
    [vy], which are floating point and not represented) to every node object
    it is given. *)
Module Node.
Record t := mk {
  id : string;
  label : string;
  types : list string;
  isType : bool;
  index : option nat
}.

#[global] Instance node_eq_dec : EqDecision t.
Proof. solve_decision. Defined.
End Node.

(** An end of a link: the node id the projector wrote, or the node object
    that the link force put in its place. *)
Inductive Endpoint :=
  | Label (s : string)
  | NodeObj (n : Node.t).

#[global] Instance Endpoint_eq_dec : EqDecision Endpoint.
Proof. solve_decision. Defined.

Module Link.
Record t := mk {
  source : Endpoint;
  target : Endpoint;
  predicate : string;
  index : option nat
}.

#[global] Instance link_eq_dec : EqDecision t.
Proof. solve_decision. Defined.
End Link.

Record GraphData := mkGraph {
  nodes : list Node.t;
  links : list Link.t
}.

#[global] Instance GraphData_eq_dec : EqDecision GraphData.
Proof. solve_decision. Defined.

Inductive TypeDisplay := On | Nodes | Off.

(** ** Insertion-ordered [Map] with string keys *)

Module JSMap.
Section Ops.
Context {V : Type}.

Definition has (k : string) (m : list (string * V)) : bool :=
  existsb (fun kv => String.eqb (fst kv) k) m.

(** An existing key keeps its position; a new key goes last. *)
Fixpoint set (k : string) (v : V) (m : list (string * V)) : list (string * V) :=
  match m with
  | [] => [(k, v)]
  | (k', v') :: rest =>
      if String.eqb k' k then (k, v) :: rest else (k', v') :: set k v rest
  end.

Definition values (m : list (string * V)) : list V := map snd m.
End Ops.
End JSMap.

(** ** Triple projector *)

(** First pass of [triplesToGraph]: the [nodeTypes] index. *)
Definition typeIndexStep (nodeTypes : gmap string (list string)) (triple : N3.Triple)
  : gmap string (list string) :=
  let subject := shortenURI (N3.value (N3.subject triple)) in
  let predicate := shortenURI (N3.value (N3.predicate triple)) in
  let object := shortenURI (N3.value (N3.object triple)) in
  if String.eqb predicate "type" then
    let nodeTypes1 :=
      match nodeTypes !! subject with
      | Some _ => nodeTypes
      | None => <[subject := []]> nodeTypes
      end in
    <[subject := default [] (nodeTypes1 !! subject) ++ [object]]> nodeTypes1
  else nodeTypes.

(** [typeDisplay === 'on' ? (nodeTypes.get(k) || []) : []] *)
Definition typesFor (typeDisplay : TypeDisplay) (nodeTypes : gmap string (list string))
    (k : string) : list string :=
  match typeDisplay with
  | On => default [] (nodeTypes !! k)
  | _ => []
  end.

(** [if (!nodes.has(k)) nodes.set(k, n)] *)
Definition setIfAbsent (k : string) (n : Node.t) (nodes : list (string * Node.t))
  : list (string * Node.t) :=
  if JSMap.has k nodes then nodes else JSMap.set k n nodes.

Definition plainNode (typeDisplay : TypeDisplay) (nodeTypes : gmap string (list string))
    (k : string) : Node.t :=
  Node.mk k k (typesFor typeDisplay nodeTypes k) false None.

Definition typeNode (k : string) : Node.t := Node.mk k k [] true None.

Definition newLink (subject object predicate : string) : Link.t :=
  Link.mk (Label subject) (Label object) predicate None.

(** Second pass of [triplesToGraph]: one iteration of the build loop over
    the pair of the [nodes] map and the [links] array. *)
Definition buildStep (typeDisplay : TypeDisplay) (nodeTypes : gmap string (list string))
    (acc : list (string * Node.t) * list Link.t) (triple : N3.Triple)
  : list (string * Node.t) * list Link.t :=
  let '(nodes, links) := acc in
  let subject := shortenURI (N3.value (N3.subject triple)) in
  let predicate := shortenURI (N3.value (N3.predicate triple)) in
  let object := shortenURI (N3.value (N3.object triple)) in
  if String.eqb predicate "type" then
    let nodes1 := setIfAbsent subject (plainNode typeDisplay nodeTypes subject) nodes in
    match typeDisplay with
    | Nodes =>
        let nodes2 := setIfAbsent object (typeNode object) nodes1 in
        (nodes2, links ++ [newLink subject object predicate])
    | _ => (nodes1, links)
    end
  else
    let nodes1 := setIfAbsent subject (plainNode typeDisplay nodeTypes subject) nodes in
    if N3.isNamedNode (N3.object triple) then
      let nodes2 := setIfAbsent object (plainNode typeDisplay nodeTypes object) nodes1 in
      (nodes2, links ++ [newLink subject object predicate])
    else (nodes1, links).

Definition triplesToGraph (typeDisplay : TypeDisplay) (triples : list N3.Triple)
  : GraphData :=
  let nodeTypes := fold_left typeIndexStep triples ∅ in
  let '(nodes, links) := fold_left (buildStep typeDisplay nodeTypes) triples ([], []) in
  mkGraph (JSMap.values nodes) links.

(** Sample statements. *)
Definition iri (s : string) : N3.Term := N3.mkTerm N3.NamedNode s.
Definition lit (s : string) : N3.Term := N3.mkTerm N3.Literal s.

Definition rdfType : N3.Term := iri "http://www.w3.org/1999/02/22-rdf-syntax-ns#type".
Definition ex_a : N3.Term := iri "http://example.org/a".
Definition ex_b : N3.Term := iri "http://example.org/b".
Definition ex_Person : N3.Term := iri "http://example.org/Person".
Definition foaf_knows : N3.Term := iri "http://xmlns.com/foaf/0.1/knows".

Definition aPersonKnowsB : list N3.Triple :=
  [ N3.mkTriple ex_a rdfType ex_Person; N3.mkTriple ex_a foaf_knows ex_b ].

(** ** State history and timeline controller *)

(** One element of [this.states]: the projected graph object with its
    [timestamp] (seconds since [startTime]). *)
Record Snapshot := mkSnapshot {
  data : GraphData;
  timestamp : Q
}.

(** The fields of [RDFGraphViewer] that the engine reads.  [renderCalls]
    logs every call [renderState(index, animate)], oldest first. *)
Record Viewer := mkViewer {
  states : list Snapshot;
  currentStateIndex : Z;
  lastRenderedIndex : Z;
  isLive : bool;
  isPaused : bool;
  startTime : Z;
  typeDisplay : TypeDisplay;
  renderCalls : list (Z * bool)
}.

(** The constructor, started at clock reading [now] (milliseconds). *)
Definition newViewer (now : Z) : Viewer :=
  mkViewer [] 0 (-1) true false now On [].

Definition maxTick (v : Viewer) : Z := Z.of_nat (length (states v)) - 1.

Inductive Mode := Live | Paused.

(** The controller advances on its own exactly when [isLive && !isPaused]. *)
Definition mode (v : Viewer) : Mode :=
  if isLive v && negb (isPaused v) then Live else Paused.

(** *** What the force simulation does to the objects it is handed

    [simulation.nodes(data.nodes)] writes [index] (and coordinates) into each
    node object of the array; [forceLink.links(data.links)] writes [index]
    into each link object and replaces a [source]/[target] that is still an
    id by the node object with that id.  [renderState] passes the arrays held
    in [this.states], so the stored snapshot itself changes; this is why the
    key function of [renderState] reads [d.source.id || d.source] and why
    [ticked] reads [d.x] and [d.source.x] from these objects. *)

Definition initializeNodes (ns : list Node.t) : list Node.t :=
  imap (fun i n => Node.mk (Node.id n) (Node.label n) (Node.types n) (Node.isType n) (Some i)) ns.

(** [nodeById = new Map(nodes.map(d => [d.id, d]))]: a later node with the
    same id replaces an earlier one. *)
Definition findNode (ns : list Node.t) (k : string) : option Node.t :=
  fold_left (fun acc n => if String.eqb (Node.id n) k then Some n else acc) ns None.

(** The library raises when no node has the id; the projector never emits
    such a link (every link end is the id of a node of the same graph). *)
Definition resolveEndpoint (ns : list Node.t) (e : Endpoint) : Endpoint :=
  match e with
  | NodeObj _ => e
  | Label k => match findNode ns k with Some n => NodeObj n | None => e end
  end.

Definition initializeLinks (ns : list Node.t) (ls : list Link.t) : list Link.t :=
  imap (fun i l => Link.mk (resolveEndpoint ns (Link.source l))
                           (resolveEndpoint ns (Link.target l))
                           (Link.predicate l) (Some i)) ls.

Definition simulate (g : GraphData) : GraphData :=
  let ns := initializeNodes (nodes g) in
  mkGraph ns (initializeLinks ns (links g)).

Definition simulateSnapshot (s : Snapshot) : Snapshot :=
  mkSnapshot (simulate (data s)) (timestamp s).

(** [renderState(index, animate = false)] *)
Definition renderState (v : Viewer) (index : Z) (animate : bool) : Viewer :=
  let calls := renderCalls v ++ [(index, animate)] in
  if (index <? 0) || (index >=? Z.of_nat (length (states v))) then
    mkViewer (states v) (currentStateIndex v) (lastRenderedIndex v)
             (isLive v) (isPaused v) (startTime v) (typeDisplay v) calls
  else if index =? lastRenderedIndex v then
    mkViewer (states v) (currentStateIndex v) (lastRenderedIndex v)
             (isLive v) (isPaused v) (startTime v) (typeDisplay v) calls
  else
    mkViewer (alter simulateSnapshot (Z.to_nat index) (states v))
             (currentStateIndex v) index
             (isLive v) (isPaused v) (startTime v) (typeDisplay v) calls.

Definition updateLiveStatus (v : Viewer) : Viewer :=
  let isAtLatest := currentStateIndex v =? Z.of_nat (length (states v)) - 1 in
  let live := isAtLatest && negb (isPaused v) in
  mkViewer (states v) (currentStateIndex v) (lastRenderedIndex v)
           live (negb live) (startTime v) (typeDisplay v) (renderCalls v).

Definition setCurrentStateIndex (v : Viewer) (i : Z) : Viewer :=
  mkViewer (states v) i (lastRenderedIndex v)
           (isLive v) (isPaused v) (startTime v) (typeDisplay v) (renderCalls v).

Definition Qltb (x y : Q) : bool := negb (Qle_bool y x).

(** The [for] loop of [seekToTime], from position [i] on, in exact
    arithmetic.  It serves for the bounds and the mode after a seek, which
    do not depend on which of the ticks is selected; the selection itself is
    treated on doubles ([closestFromD]). *)
Fixpoint closestFrom (timeValue : Q) (rest : list Snapshot) (i closestIndex : Z) (minDiff : Q) : Z :=
  match rest with
  | [] => closestIndex
  | s :: rest' =>
      let diff := Qabs (timestamp s - timeValue) in
      if Qltb diff minDiff then closestFrom timeValue rest' (i + 1) i diff
      else closestFrom timeValue rest' (i + 1) closestIndex minDiff
  end.

Definition closestIndexTo (timeValue : Q) (s0 : Snapshot) (rest : list Snapshot) : Z :=
  closestFrom timeValue rest 1 0 (Qabs (timestamp s0 - timeValue)).

Definition seekToTime (v : Viewer) (timeValue : Q) : Viewer :=
  match states v with
  | [] => v
  | s0 :: rest =>
      let v1 := setCurrentStateIndex v (closestIndexTo timeValue s0 rest) in
      let v2 := updateLiveStatus v1 in
      renderState v2 (currentStateIndex v2) false
  end.

Definition seekToTick (v : Viewer) (tickValue : Z) : Viewer :=
  let v1 := setCurrentStateIndex v tickValue in
  let v2 := updateLiveStatus v1 in
  renderState v2 (currentStateIndex v2) false.

Definition goToLive (v : Viewer) : Viewer :=
  if 0 <? Z.of_nat (length (states v)) then
    let v1 := mkViewer (states v) (Z.of_nat (length (states v)) - 1) (lastRenderedIndex v)
                       true false (startTime v) (typeDisplay v) (renderCalls v) in
    let v2 := renderState v1 (currentStateIndex v1) false in
    updateLiveStatus v2
  else v.

(** The click handler of the timeline wrapper. *)
Definition timelineClick (v : Viewer) : Viewer :=
  if isLive v then
    updateLiveStatus
      (mkViewer (states v) (currentStateIndex v) (lastRenderedIndex v)
                false true (startTime v) (typeDisplay v) (renderCalls v))
  else v.

(** [JSON.stringify(lastData) === JSON.stringify(currentData)].  On objects
    of these shapes (fixed key order, escaped strings) the serialization is
    injective, so the comparison is equality of the two values as they are at
    the time of the call.  The coordinates left out of [Node.t] sit only on
    node objects that also carry [index], and the candidate is always a fresh
    projection without [index], so leaving them out does not change the
    outcome of the comparison. *)
Definition isDuplicate (v : Viewer) (graphData : GraphData) : bool :=
  match last (states v) with
  | Some lastState => bool_decide (data lastState = graphData)
  | None => false
  end.

(** [addNewState(triples)], with [now] the reading of [Date.now()].  The
    timestamp is kept as the exact quotient; the program stores the double
    nearest to it ([timestampOf]). *)
Definition addNewState (v : Viewer) (triples : list N3.Triple) (now : Z) : Viewer :=
  let graphData := triplesToGraph (typeDisplay v) triples in
  let timestamp := (inject_Z (now - startTime v) / 1000)%Q in
  if isDuplicate v graphData then v
  else
    let v1 := mkViewer (states v ++ [mkSnapshot graphData timestamp])
                       (currentStateIndex v) (lastRenderedIndex v)
                       (isLive v) (isPaused v) (startTime v) (typeDisplay v)
                       (renderCalls v) in
    if isLive v1 && negb (isPaused v1) then
      let v2 := setCurrentStateIndex v1 (Z.of_nat (length (states v1)) - 1) in
      renderState v2 (currentStateIndex v2) true
    else v1.

(** ** Sample histories *)

Definition ex_name : N3.Term := iri "http://example.org/name".
Definition ex_c : N3.Term := iri "http://example.org/c".
Definition ex_d : N3.Term := iri "http://example.org/d".
Definition ex_e : N3.Term := iri "http://example.org/e".

Definition ring : list N3.Triple :=
  [ N3.mkTriple ex_a foaf_knows ex_b; N3.mkTriple ex_b foaf_knows ex_c;
    N3.mkTriple ex_c foaf_knows ex_d; N3.mkTriple ex_d foaf_knows ex_e;
    N3.mkTriple ex_e foaf_knows ex_a ].

(** A run of polls, each delivering a statement list at a clock reading. *)
Definition feed (v : Viewer) (polls : list (list N3.Triple * Z)) : Viewer :=
  fold_left (fun v' p => addNewState v' (fst p) (snd p)) polls v.

(** Snapshots at 1.0 s and 3.0 s. *)
Definition twoSnapshots : Viewer :=
  feed (newViewer 0) [(take 1 ring, 1000); (take 2 ring, 3000)].

Definition threeSnapshots : Viewer :=
  feed (newViewer 0) [(take 1 ring, 1000); (take 2 ring, 2000); (take 3 ring, 3000)].

Definition fiveSnapshots : Viewer :=
  feed (newViewer 0)
       [(take 1 ring, 1000); (take 2 ring, 2000); (take 3 ring, 3000);
        (take 4 ring, 4000); (ring, 5000)].

(** ** Operations of the controller as a transition system *)

Inductive Op :=
  | SeekToTime (timeValue : Q)
  | SeekToTick (tickValue : Z)
  | GoToLive
  | TimelineClick
  | AddNewState (triples : list N3.Triple) (now : Z).

Definition step (v : Viewer) (op : Op) : Viewer :=
  match op with
  | SeekToTime timeValue => seekToTime v timeValue
  | SeekToTick tickValue => seekToTick v tickValue
  | GoToLive => goToLive v
  | TimelineClick => timelineClick v
  | AddNewState triples now => addNewState v triples now
  end.

(** A tick handed to [seekToTick] that lies on the tick axis. *)
Definition tickInRange (v : Viewer) (op : Op) : Prop :=
  match op with
  | SeekToTick tickValue => 0 <= tickValue <= maxTick v
  | _ => True
  end.

Inductive reachable : Viewer -> Prop :=
  | reachable_new (now : Z) : reachable (newViewer now)
  | reachable_step (v : Viewer) (op : Op) :
      reachable v -> tickInRange v op -> reachable (step v op).

(** ** Predicates used in the statements *)

(** Every entry of the [nodes] map is filed under the id of its node. *)
Definition keyed (m : list (string * Node.t)) : Prop :=
  forall kv, kv ∈ m -> Node.id (snd kv) = fst kv.

(** The ends of a link are ids that the [nodes] map holds. *)
Definition anchored (m : list (string * Node.t)) (l : Link.t) : Prop :=
  exists s t, Link.source l = Label s /\ Link.target l = Label t /\
              JSMap.has s m = true /\ JSMap.has t m = true.

Definition buildInv (acc : list (string * Node.t) * list Link.t) : Prop :=
  keyed (fst acc) /\ forall l, l ∈ snd acc -> anchored (fst acc) l.

(** How the [nodes] map built with an extra statement about [subj] ([m1])
    relates to the map built without it ([m2]): apart from [subj] they hold
    the same keys, and every entry of [m1] is the node of [subj] or an entry
    of [m2]. *)
Definition extends (subj : string) (m1 m2 : list (string * Node.t)) : Prop :=
  (forall k, k <> subj -> JSMap.has k m1 = JSMap.has k m2) /\
  (JSMap.has subj m2 = true -> JSMap.has subj m1 = true) /\
  (forall kv, kv ∈ m1 -> Node.id (snd kv) = subj \/ kv ∈ m2).

(** The playhead lies on the tick axis (tick 0 while the history is empty). *)
Definition playheadInv (v : Viewer) : Prop :=
  0 <= currentStateIndex v <= Z.max 0 (maxTick v).

Definition inBounds (v : Viewer) : Prop :=
  0 <= currentStateIndex v < Z.of_nat (length (states v)).

Definition diffTo (timeValue : Q) (s : Snapshot) : Q :=
  Qabs (timestamp s - timeValue).

(** Tick [k] of [history] is nearest to [timeValue], and no earlier tick is
    as near. *)
Definition firstNearest (timeValue : Q) (history : list Snapshot) (k : Z) : Prop :=
  0 <= k < Z.of_nat (length history) /\
  exists sk, history !! Z.to_nat k = Some sk /\
    forall j sj, history !! j = Some sj ->
      (diffTo timeValue sk <= diffTo timeValue sj)%Q /\
      (Z.of_nat j < k -> (diffTo timeValue sk < diffTo timeValue sj)%Q).

(** ** Descriptions of the projector's output *)

(** The statement makes the build loop push a link (and ensure a node for
    its object): a [type] statement under [Nodes], or any other statement
    whose object is a named node. *)
Definition emitsLink (typeDisplay : TypeDisplay) (triple : N3.Triple) : bool :=
  if String.eqb (shortenURI (N3.value (N3.predicate triple))) "type" then
    match typeDisplay with Nodes => true | _ => false end
  else N3.isNamedNode (N3.object triple).

Definition linkOf (typeDisplay : TypeDisplay) (triple : N3.Triple) : list Link.t :=
  if emitsLink typeDisplay triple then
    [newLink (shortenURI (N3.value (N3.subject triple)))
             (shortenURI (N3.value (N3.object triple)))
             (shortenURI (N3.value (N3.predicate triple)))]
  else [].

(** The statement ensures a node with id [k]. *)
Definition mentions (typeDisplay : TypeDisplay) (k : string) (triple : N3.Triple) : bool :=
  String.eqb (shortenURI (N3.value (N3.subject triple))) k
  || (emitsLink typeDisplay triple
      && String.eqb (shortenURI (N3.value (N3.object triple))) k).

(** The shortened objects of the [type] statements about [k], in order. *)
Definition typeObjects (k : string) (triples : list N3.Triple) : list string :=
  flat_map (fun t =>
    if String.eqb (shortenURI (N3.value (N3.predicate t))) "type"
       && String.eqb (shortenURI (N3.value (N3.subject t))) k
    then [shortenURI (N3.value (N3.object t))] else []) triples.

(** ** A snapshot without what the simulation wrote into it *)

Definition eraseNode (n : Node.t) : Node.t :=
  Node.mk (Node.id n) (Node.label n) (Node.types n) (Node.isType n) None.

Definition eraseEndpoint (e : Endpoint) : Endpoint :=
  match e with
  | Label s => Label s
  | NodeObj n => Label (Node.id n)
  end.

Definition eraseLink (l : Link.t) : Link.t :=
  Link.mk (eraseEndpoint (Link.source l)) (eraseEndpoint (Link.target l))
          (Link.predicate l) None.

Definition eraseLayout (g : GraphData) : GraphData :=
  mkGraph (map eraseNode (nodes g)) (map eraseLink (links g)).

Definition content (s : Snapshot) : GraphData * Q :=
  (eraseLayout (data s), timestamp s).

(** ** Join keys of [renderState] *)

(** [d.source.id || d.source] inside a template literal: a string has no
    [id]; a node object with an empty [id] prints as an object. *)
Definition endpointKey (e : Endpoint) : string :=
  match e with
  | Label s => s
  | NodeObj n => if nonEmpty (Node.id n) then Node.id n else "[object Object]"
  end.

(** The key function of the link and link-label joins. *)
Definition linkKey (l : Link.t) : string :=
  endpointKey (Link.source l) +:+ "-" +:+ endpointKey (Link.target l)
    +:+ "-" +:+ Link.predicate l.

(** ** Polling and settings *)

(** The remaining fields of [RDFGraphViewer] that the polling loop and the
    settings panel use: [settings.rdfFilePath] and [lastRdfContent]
    ([None] is [null]). *)
Record App := mkApp {
  viewer : Viewer;
  rdfFilePath : string;
  lastRdfContent : option string
}.

Definition newApp (now : Z) : App := mkApp (newViewer now) "/index.rdf" None.

Definition startsWith (p s : string) : bool := String.prefix p s.

Fixpoint includes (p s : string) : bool :=
  String.prefix p s
  || match s with
     | EmptyString => false
     | String _ rest => includes p rest
     end.

(** The test in [watchRDFFile] that selects the [/api/file] endpoint. *)
Definition usesFileApi (path : string) : bool :=
  startsWith "~" path || (startsWith "/" path && includes "/" path).

Definition clearStates (v : Viewer) : Viewer :=
  mkViewer [] (currentStateIndex v) (lastRenderedIndex v)
           (isLive v) (isPaused v) (startTime v) (typeDisplay v) (renderCalls v).

Definition setTypeDisplay (v : Viewer) (value : TypeDisplay) : Viewer :=
  mkViewer (states v) (currentStateIndex v) (lastRenderedIndex v)
           (isLive v) (isPaused v) (startTime v) value (renderCalls v).

(** The [change] handler of the file path input. *)
Definition changeRdfFilePath (a : App) (value : string) : App :=
  mkApp (clearStates (viewer a)) value None.

Section Polling.
(** The N3 parser: the statements of a document, or [None] when it reports
    an error or throws. *)
Variable parse : string -> option (list N3.Triple).

(** [parseAndUpdateGraph(rdfContent)]: [addNewState] runs when the parser
    signals the end of the document, and not at all after an error. *)
Definition parseAndUpdateGraph (v : Viewer) (rdfContent : string) (now : Z) : Viewer :=
  match parse rdfContent with
  | Some triples => addNewState v triples now
  | None => v
  end.

(** One round of the interval callback of [watchRDFFile], from the point
    where the fetch has settled: [response] is the text of an [ok] response,
    [None] for a failed fetch or a response that is not [ok]. *)
Definition onPoll (a : App) (response : option string) (now : Z) : App :=
  match response with
  | Some rdfContent =>
      if bool_decide (Some rdfContent = lastRdfContent a) then a
      else mkApp (parseAndUpdateGraph (viewer a) rdfContent now)
                 (rdfFilePath a) (Some rdfContent)
  | None => a
  end.

(** The [change] handler of a checked type-display radio button.
    [if (this.lastRdfContent)] is false for [null] and for the empty
    string. *)
Definition changeTypeDisplay (a : App) (value : TypeDisplay) (now : Z) : App :=
  let v := setTypeDisplay (viewer a) value in
  match lastRdfContent a with
  | Some rdfContent =>
      if nonEmpty rdfContent then
        mkApp (parseAndUpdateGraph (clearStates v) rdfContent now)
              (rdfFilePath a) (lastRdfContent a)
      else mkApp v (rdfFilePath a) (lastRdfContent a)
  | None => mkApp v (rdfFilePath a) (lastRdfContent a)
  end.
End Polling.

(** A stand-in parser for the examples: one document that does not parse,
    and two that yield the sample statements. *)
Definition sampleParse (text : string) : option (list N3.Triple) :=
  if String.eqb text "malformed" then None
  else if String.eqb text "ring" then Some ring
  else Some aPersonKnowsB.

(** Every entry of the [nodes] map is one of the two node shapes. *)
Definition shaped (typeDisplay : TypeDisplay) (nodeTypes : gmap string (list string))
    (m : list (string * Node.t)) : Prop :=
  forall kv, kv ∈ m ->
    snd kv = plainNode typeDisplay nodeTypes (fst kv) \/
    (typeDisplay = Nodes /\ snd kv = typeNode (fst kv)).

(** Strictly increasing, first to last. *)
Fixpoint increasing (l : list Q) : Prop :=
  match l with
  | [] => True
  | x :: rest => Forall (Qlt x) rest /\ increasing rest
  end.

(** ** The order of node ids *)

(** [if (!nodes.has(k)) nodes.set(k, ...)], seen on the key sequence of the
    [nodes] map alone. *)
Definition addKey (k : string) (keys : list string) : list string :=
  if existsb (fun k' => String.eqb k' k) keys then keys else keys ++ [k].

(** One iteration of the build loop, seen on the key sequence alone. *)
Definition keyStep (typeDisplay : TypeDisplay) (keys : list string) (triple : N3.Triple)
  : list string :=
  let keys1 := addKey (shortenURI (N3.value (N3.subject triple))) keys in
  if emitsLink typeDisplay triple
  then addKey (shortenURI (N3.value (N3.object triple))) keys1
  else keys1.

(** ** The scan of [seekToTime] in double precision *)

(** JavaScript numbers: IEEE 754 binary64 with rounding to nearest, ties to
    even. *)
Module Double.
Definition number := spec_float.

Definition ofZ (z : Z) : number := binary_normalize 53 1024 z 0 false.
Definition sub : number -> number -> number := SFsub 53 1024.
Definition div : number -> number -> number := SFdiv 53 1024.
Definition abs : number -> number := SFabs.
Definition ltb : number -> number -> bool := SFltb.

(** The exact value of a finite number. *)
Definition toQ (x : number) : Q :=
  match x with
  | S754_finite s m e =>
      ((if s then -1 else 1) * inject_Z (Zpos m) * Qpower 2 e)%Q
  | _ => 0%Q
  end.
End Double.

(** [(Date.now() - this.startTime) / 1000], for an elapsed time in
    milliseconds (an integer below [2^53], so that the subtraction is
    exact). *)
Definition timestampOf (elapsedMs : Z) : Double.number :=
  Double.div (Double.ofZ elapsedMs) (Double.ofZ 1000).

(** [Math.abs(this.states[i].timestamp - timeValue)] *)
Definition absDiff (timeValue ts : Double.number) : Double.number :=
  Double.abs (Double.sub ts timeValue).

(** The [for] loop of [seekToTime] over the timestamps of the states from
    position [i] on. *)
Fixpoint closestFromD (timeValue : Double.number) (rest : list Double.number)
    (i closestIndex : Z) (minDiff : Double.number) : Z :=
  match rest with
  | [] => closestIndex
  | ts :: rest' =>
      let diff := absDiff timeValue ts in
      if Double.ltb diff minDiff then closestFromD timeValue rest' (i + 1) i diff
      else closestFromD timeValue rest' (i + 1) closestIndex minDiff
  end.

(** The index [seekToTime(timeValue)] assigns to [currentStateIndex], given
    the timestamps of [this.states]; [None] is the early return on an empty
    history. *)
Definition seekToTimeIndex (timestamps : list Double.number) (timeValue : Double.number)
  : option Z :=
  match timestamps with
  | [] => None
  | ts0 :: rest => Some (closestFromD timeValue rest 1 0 (absDiff timeValue ts0))
  end.

(** Tick [k] has the least computed difference to [timeValue], and every
    earlier tick has a strictly larger one. *)
Definition firstLeast (timeValue : Double.number) (timestamps : list Double.number)
    (k : Z) : Prop :=
  0 <= k < Z.of_nat (length timestamps) /\
  exists tk, timestamps !! Z.to_nat k = Some tk /\
    forall j tj, timestamps !! j = Some tj ->
      Double.ltb (absDiff timeValue tj) (absDiff timeValue tk) = false /\
      (Z.of_nat j < k -> Double.ltb (absDiff timeValue tk) (absDiff timeValue tj) = true).

(** A position in the order of the numbers that are not NaN. *)
Definition orderKey (x : Double.number) : Z * Z * Z :=
  match x with
  | S754_nan => (0, 0, 0)
  | S754_zero _ => (0, 0, 0)
  | S754_infinity s => (if s then -2 else 2, 0, 0)
  | S754_finite s m e => if s then (-1, - e, Zneg m) else (1, e, Zpos m)
  end.

Definition keyLt (a b : Z * Z * Z) : Prop :=
  fst (fst a) < fst (fst b) \/
  (fst (fst a) = fst (fst b) /\
   (snd (fst a) < snd (fst b) \/ (snd (fst a) = snd (fst b) /\ snd a < snd b))).

(** The double nearest to 135.797. *)
Definition near135_797 : Double.number := S754_finite false 4777932176547119 (-45).

(** * Properties *)

Example shorten_sample : shortenURI "http://example.org/a" = "a".
Proof. reflexivity. Qed.

(** ** URI shortener *)

Lemma sepFree_app (a b : string) :
  sepFree (a +:+ b) = sepFree a && sepFree b.
Proof.
  induction a as [|c a IH]; simpl; [reflexivity|].
  rewrite IH. destruct (isSep c); reflexivity.
Qed.

Lemma regexMatch_sepFree (s : string) :
  sepFree s = true -> regexMatch s = None.
Proof.
  induction s as [|c s IH]; simpl; [reflexivity|].
  intros H. apply andb_prop in H as [Hc Hs].
  destruct (isSep c); [discriminate|]. simpl. auto.
Qed.

Lemma regexMatch_last_segment (pre suf : string) (c : ascii) :
  isSep c = true -> sepFree suf = true -> suf <> "" ->
  regexMatch (pre +:+ String c suf) = Some suf.
Proof.
  intros Hc Hsuf Hne. induction pre as [|d pre IH]; simpl.
  - rewrite Hc, Hsuf. destruct suf; [congruence|reflexivity].
  - rewrite sepFree_app. simpl. rewrite Hc. simpl.
    rewrite andb_false_r, andb_false_r. exact IH.
Qed.

Lemma regexMatch_trailing_sep (pre : string) (c : ascii) :
  isSep c = true -> regexMatch (pre +:+ String c "") = None.
Proof.
  intros Hc. induction pre as [|d pre IH]; simpl.
  - rewrite andb_false_r. reflexivity.
  - rewrite sepFree_app. simpl. rewrite Hc. simpl.
    rewrite andb_false_r, andb_false_r. exact IH.
Qed.

(** C9 (as amended): [shortenURI] is a total function that returns the text
    after the last [/] or [#] when that text is not empty, and returns its
    argument unchanged when the argument has no separator or ends with one. *)
Theorem shortenURI_last_segment (uri : string) :
  (sepFree uri = true -> shortenURI uri = uri) /\
  (forall pre c suf, uri = pre +:+ String c suf -> isSep c = true ->
     sepFree suf = true -> suf <> "" -> shortenURI uri = suf) /\
  (forall pre c, uri = pre +:+ String c "" -> isSep c = true ->
     shortenURI uri = uri).
Proof.
  unfold shortenURI. repeat split.
  - intros H. rewrite regexMatch_sepFree by assumption. reflexivity.
  - intros pre c suf -> Hc Hsuf Hne.
    rewrite regexMatch_last_segment by assumption. reflexivity.
  - intros pre c -> Hc. rewrite regexMatch_trailing_sep by assumption. reflexivity.
Qed.

Lemma shortenURI_last_segment_witness :
  shortenURI "plain" = "plain" /\
  shortenURI "http://example.org/ns#Person" = "Person" /\
  shortenURI "http://example.org/" = "http://example.org/".
Proof.
  split; [|split].
  - apply (proj1 (shortenURI_last_segment "plain")). reflexivity.
  - apply (proj1 (proj2 (shortenURI_last_segment "http://example.org/ns#Person"))
             "http://example.org/ns" "#"%char "Person");
      [reflexivity | reflexivity | reflexivity | discriminate].
  - apply (proj2 (proj2 (shortenURI_last_segment "http://example.org/"))
             "http://example.org" "/"%char); reflexivity.
Defined.

(** C9 as stated fails: the text after the last separator of
    ["http://example.org/"] is empty, yet the whole string is returned. *)
Lemma shortenURI_trailing_separator_counterexample :
  ~ (forall uri pre c suf, uri = pre +:+ String c suf -> isSep c = true ->
       sepFree suf = true -> shortenURI uri = suf).
Proof.
  intros H.
  specialize (H "http://example.org/" "http://example.org" "/"%char ""
                eq_refl eq_refl eq_refl).
  vm_compute in H. discriminate H.
Qed.

(** ** Triple projector: the type-display policies *)

(** C1: the statements [a rdf:type Person] and [a knows b] project, under
    [Off], to the nodes [a] and [b] without types and the one link
    [a -knows-> b]; under [On], to the same except that [a] carries the type
    [Person]; under [Nodes], to the nodes [a], [Person] (a type node without
    types) and [b], and the links [a -type-> Person] and [a -knows-> b]. *)
Theorem type_policy_shapes :
  triplesToGraph Off aPersonKnowsB =
    mkGraph [Node.mk "a" "a" [] false None; Node.mk "b" "b" [] false None]
            [Link.mk (Label "a") (Label "b") "knows" None] /\
  triplesToGraph On aPersonKnowsB =
    mkGraph [Node.mk "a" "a" ["Person"] false None; Node.mk "b" "b" [] false None]
            [Link.mk (Label "a") (Label "b") "knows" None] /\
  triplesToGraph Nodes aPersonKnowsB =
    mkGraph [Node.mk "a" "a" [] false None; Node.mk "Person" "Person" [] true None;
             Node.mk "b" "b" [] false None]
            [Link.mk (Label "a") (Label "Person") "type" None;
             Link.mk (Label "a") (Label "b") "knows" None].
Proof. repeat split; vm_compute; reflexivity. Qed.

(** ** Triple projector: structure of the result *)

Lemma fold_left_invariant {A B : Type} (P : A -> Prop) (f : A -> B -> A) (l : list B) (a : A) :
  P a -> (forall a' x, P a' -> x ∈ l -> P (f a' x)) -> P (fold_left f l a).
Proof.
  revert a. induction l as [|x l IH]; intros a Ha Hstep; simpl; [exact Ha|].
  apply IH.
  - apply Hstep; [exact Ha | left].
  - intros a' y Ha' Hy. apply Hstep; [exact Ha' | right; exact Hy].
Qed.

Lemma has_app {V : Type} (k : string) (m m' : list (string * V)) :
  JSMap.has k (m ++ m') = JSMap.has k m || JSMap.has k m'.
Proof. unfold JSMap.has. apply existsb_app. Qed.

Lemma set_absent {V : Type} (k : string) (v : V) (m : list (string * V)) :
  JSMap.has k m = false -> JSMap.set k v m = m ++ [(k, v)].
Proof.
  induction m as [|[k' v'] m IH]; simpl; [reflexivity|].
  intros H. apply orb_false_elim in H as [Hk Hm].
  rewrite Hk. f_equal. auto.
Qed.

Lemma setIfAbsent_unfold (k : string) (n : Node.t) (m : list (string * Node.t)) :
  setIfAbsent k n m = if JSMap.has k m then m else m ++ [(k, n)].
Proof.
  unfold setIfAbsent. destruct (JSMap.has k m) eqn:H; [reflexivity|].
  apply set_absent. exact H.
Qed.

Lemma has_setIfAbsent (k k' : string) (n : Node.t) (m : list (string * Node.t)) :
  JSMap.has k' (setIfAbsent k n m) = String.eqb k k' || JSMap.has k' m.
Proof.
  rewrite setIfAbsent_unfold. destruct (JSMap.has k m) eqn:H.
  - destruct (String.eqb_spec k k') as [<-|Hne]; [|reflexivity].
    rewrite H. reflexivity.
  - rewrite has_app. simpl. rewrite orb_false_r. apply orb_comm.
Qed.

Lemma elem_of_setIfAbsent (k : string) (n : Node.t) (m : list (string * Node.t)) kv :
  kv ∈ setIfAbsent k n m -> kv ∈ m \/ kv = (k, n).
Proof.
  rewrite setIfAbsent_unfold. destruct (JSMap.has k m); [auto|].
  rewrite elem_of_app, list_elem_of_singleton. auto.
Qed.

Lemma setIfAbsent_incl (k : string) (n : Node.t) (m : list (string * Node.t)) kv :
  kv ∈ m -> kv ∈ setIfAbsent k n m.
Proof.
  rewrite setIfAbsent_unfold. destruct (JSMap.has k m); [auto|].
  rewrite elem_of_app. auto.
Qed.


Lemma keyed_setIfAbsent (k : string) (n : Node.t) (m : list (string * Node.t)) :
  Node.id n = k -> keyed m -> keyed (setIfAbsent k n m).
Proof.
  intros Hid Hm kv Hkv. apply elem_of_setIfAbsent in Hkv as [Hkv | ->]; auto.
Qed.

Lemma anchored_setIfAbsent (k : string) (n : Node.t) (m : list (string * Node.t)) (l : Link.t) :
  anchored m l -> anchored (setIfAbsent k n m) l.
Proof.
  intros (s & t & Hs & Ht & Hms & Hmt). exists s, t.
  rewrite !has_setIfAbsent, Hms, Hmt, !orb_true_r. auto.
Qed.

Lemma anchored_newLink (m : list (string * Node.t)) (s t p : string) :
  JSMap.has s m = true -> JSMap.has t m = true -> anchored m (newLink s t p).
Proof. intros Hs Ht. exists s, t. auto. Qed.

Lemma buildStep_inv typeDisplay nodeTypes acc triple :
  buildInv acc -> buildInv (buildStep typeDisplay nodeTypes acc triple).
Proof.
  destruct acc as [m ls]. intros [Hk Hl]. unfold buildStep.
  set (subject := shortenURI (N3.value (N3.subject triple))).
  set (predicate := shortenURI (N3.value (N3.predicate triple))).
  set (object := shortenURI (N3.value (N3.object triple))).
  set (m1 := setIfAbsent subject (plainNode typeDisplay nodeTypes subject) m).
  assert (Hk1 : keyed m1) by (apply keyed_setIfAbsent; [reflexivity | exact Hk]).
  assert (Hl1 : forall l, l ∈ ls -> anchored m1 l)
    by (intros l Hin; apply anchored_setIfAbsent; auto).
  assert (Hs1 : JSMap.has subject m1 = true)
    by (unfold m1; rewrite has_setIfAbsent, String.eqb_refl; reflexivity).
  assert (Hext : forall n, Node.id n = object ->
            buildInv (setIfAbsent object n m1, ls ++ [newLink subject object predicate])).
  { intros n Hn. split; simpl.
    - apply keyed_setIfAbsent; assumption.
    - intros l Hin. apply elem_of_app in Hin as [Hin | Hin].
      + apply anchored_setIfAbsent; auto.
      + apply list_elem_of_singleton in Hin as ->.
        apply anchored_newLink; rewrite has_setIfAbsent.
        * rewrite Hs1. apply orb_true_r.
        * rewrite String.eqb_refl. reflexivity. }
  destruct (String.eqb predicate "type").
  - destruct typeDisplay; try (split; assumption). apply Hext. reflexivity.
  - destruct (N3.isNamedNode (N3.object triple)); [|split; assumption].
    apply Hext. reflexivity.
Qed.

Lemma has_values_id (m : list (string * Node.t)) (k : string) :
  keyed m -> JSMap.has k m = true -> k ∈ map Node.id (JSMap.values m).
Proof.
  intros Hk H. unfold JSMap.has in H. apply existsb_exists in H as ([k' n] & Hin & Heq).
  apply list_elem_of_In in Hin. simpl in Heq. apply String.eqb_eq in Heq. subst k'.
  unfold JSMap.values. rewrite map_map. apply list_elem_of_In, in_map_iff.
  exists (k, n). split; [apply (Hk _ Hin) | apply list_elem_of_In; exact Hin].
Qed.

(** C10: in every projected graph, under every policy, the source and the
    target of each link are ids of nodes of the same graph. *)
Theorem link_ends_are_nodes (typeDisplay : TypeDisplay) (triples : list N3.Triple) (l : Link.t) :
  l ∈ links (triplesToGraph typeDisplay triples) ->
  exists s t, Link.source l = Label s /\ Link.target l = Label t /\
    s ∈ map Node.id (nodes (triplesToGraph typeDisplay triples)) /\
    t ∈ map Node.id (nodes (triplesToGraph typeDisplay triples)).
Proof.
  unfold triplesToGraph.
  set (nodeTypes := fold_left typeIndexStep triples ∅).
  pose proof (fold_left_invariant buildInv (buildStep typeDisplay nodeTypes) triples ([], [])) as H.
  destruct (fold_left (buildStep typeDisplay nodeTypes) triples ([], [])) as [m ls].
  simpl. intros Hin.
  destruct H as [Hk Hl].
  - split; simpl; [intros kv Hkv | intros l' Hl']; inversion Hkv || inversion Hl'.
  - intros a' x Ha' _. apply buildStep_inv. exact Ha'.
  - destruct (Hl l Hin) as (s & t & Hs & Ht & Hms & Hmt). simpl in *.
    exists s, t. repeat split; auto using has_values_id.
Qed.

Lemma link_ends_are_nodes_witness :
  exists s t, Label "a" = Label s /\ Label "Person" = Label t /\
    s ∈ map Node.id (nodes (triplesToGraph Nodes aPersonKnowsB)) /\
    t ∈ map Node.id (nodes (triplesToGraph Nodes aPersonKnowsB)).
Proof.
  apply (link_ends_are_nodes Nodes aPersonKnowsB
           (Link.mk (Label "a") (Label "Person") "type" None)).
  vm_compute. left.
Defined.

(** ** Triple projector: statements whose object is not a resource *)

(** The type index after the first pass. *)
Lemma typeIndexStep_lookup nodeTypes triple k :
  default [] (typeIndexStep nodeTypes triple !! k) =
  default [] (nodeTypes !! k) ++ typeObjects k [triple].
Proof.
  unfold typeIndexStep, typeObjects. cbn [flat_map]. rewrite app_nil_r.
  destruct (String.eqb (shortenURI (N3.value (N3.predicate triple))) "type");
    cbn [andb]; [|rewrite app_nil_r; reflexivity].
  destruct (String.eqb_spec (shortenURI (N3.value (N3.subject triple))) k) as [->|Hne].
  - rewrite lookup_insert_eq. cbn [default].
    destruct (nodeTypes !! k) eqn:Hk; [rewrite Hk; reflexivity|].
    rewrite lookup_insert_eq. reflexivity.
  - rewrite lookup_insert_ne by exact Hne. rewrite app_nil_r.
    destruct (nodeTypes !! _); [reflexivity|].
    rewrite lookup_insert_ne by exact Hne. reflexivity.
Qed.

Lemma typeObjects_app k l1 l2 :
  typeObjects k (l1 ++ l2) = typeObjects k l1 ++ typeObjects k l2.
Proof. unfold typeObjects. apply flat_map_app. Qed.

Lemma typeIndex_lookup triples nodeTypes k :
  default [] (fold_left typeIndexStep triples nodeTypes !! k) =
  default [] (nodeTypes !! k) ++ typeObjects k triples.
Proof.
  revert nodeTypes. induction triples as [|t triples IH]; intros nodeTypes; cbn [fold_left].
  - unfold typeObjects. cbn [flat_map]. rewrite app_nil_r. reflexivity.
  - rewrite IH, typeIndexStep_lookup, <- app_assoc.
    change (t :: triples) with ([t] ++ triples). rewrite typeObjects_app. reflexivity.
Qed.

Lemma typeObjects_other (k : string) (s : N3.Triple) :
  shortenURI (N3.value (N3.subject s)) <> k -> typeObjects k [s] = [].
Proof.
  intros Hne. apply String.eqb_neq in Hne. unfold typeObjects. cbn [flat_map].
  rewrite Hne, andb_false_r. reflexivity.
Qed.

(** Leaving out a statement changes the types of no node but its subject's. *)
Lemma typesFor_without typeDisplay (before after : list N3.Triple) (s : N3.Triple) (k : string) :
  k <> shortenURI (N3.value (N3.subject s)) ->
  typesFor typeDisplay (fold_left typeIndexStep (before ++ s :: after) ∅) k =
  typesFor typeDisplay (fold_left typeIndexStep (before ++ after) ∅) k.
Proof.
  intros Hne. unfold typesFor. destruct typeDisplay; try reflexivity.
  rewrite !typeIndex_lookup. f_equal.
  change (s :: after) with ([s] ++ after).
  rewrite !typeObjects_app, typeObjects_other by congruence. reflexivity.
Qed.

Lemma buildStep_no_link typeDisplay nodeTypes m ls (s : N3.Triple) :
  emitsLink typeDisplay s = false ->
  buildStep typeDisplay nodeTypes (m, ls) s =
  (setIfAbsent (shortenURI (N3.value (N3.subject s)))
               (plainNode typeDisplay nodeTypes (shortenURI (N3.value (N3.subject s)))) m,
   ls).
Proof.
  unfold emitsLink, buildStep.
  destruct (String.eqb _ "type"); [destruct typeDisplay|
    destruct (N3.isNamedNode (N3.object s))]; intros H; try discriminate H; reflexivity.
Qed.

Section LiteralObject.
Variable subj : string.

Lemma extends_nil : extends subj [] [].
Proof.
  split; [reflexivity|]. split; [discriminate|]. intros kv Hkv. inversion Hkv.
Qed.

(** The statement left out on the right ensures its subject on the left. *)
Lemma extends_left (n : Node.t) (m1 m2 : list (string * Node.t)) :
  Node.id n = subj -> extends subj m1 m2 -> extends subj (setIfAbsent subj n m1) m2.
Proof.
  intros Hn (Hhas & Hs & Hin). split; [|split].
  - intros k Hk. rewrite has_setIfAbsent, <- (Hhas k Hk).
    destruct (String.eqb_spec subj k); [congruence | reflexivity].
  - intros _. rewrite has_setIfAbsent, String.eqb_refl. reflexivity.
  - intros kv Hkv. apply elem_of_setIfAbsent in Hkv as [Hkv | ->]; auto.
Qed.

Lemma extends_setIfAbsent (k : string) (n1 n2 : Node.t) (m1 m2 : list (string * Node.t)) :
  Node.id n1 = k -> (k <> subj -> n1 = n2) ->
  extends subj m1 m2 -> extends subj (setIfAbsent k n1 m1) (setIfAbsent k n2 m2).
Proof.
  intros Hn Hsame (Hhas & Hs & Hin). split; [|split].
  - intros k' Hk'. rewrite !has_setIfAbsent, (Hhas k' Hk'). reflexivity.
  - rewrite !has_setIfAbsent. destruct (String.eqb k subj); [reflexivity | exact Hs].
  - intros kv Hkv. destruct (decide (k = subj)) as [Hk|Hne].
    + apply elem_of_setIfAbsent in Hkv as [Hkv | ->];
        [|left; cbn [snd]; rewrite Hn; exact Hk].
      destruct (Hin kv Hkv) as [?|?]; [left | right; apply setIfAbsent_incl]; assumption.
    + rewrite <- (Hsame Hne).
      rewrite (setIfAbsent_unfold k n1 m1) in Hkv.
      rewrite (setIfAbsent_unfold k n1 m2), <- (Hhas k Hne).
      destruct (JSMap.has k m1).
      * exact (Hin kv Hkv).
      * apply elem_of_app in Hkv as [Hkv | Hkv].
        -- destruct (Hin kv Hkv) as [?|?]; [left | right; apply elem_of_app; left]; assumption.
        -- right. apply elem_of_app. right. exact Hkv.
Qed.

Lemma extends_buildStep typeDisplay nodeTypes1 nodeTypes2 m1 m2 ls triple :
  (forall k, k <> subj -> typesFor typeDisplay nodeTypes1 k = typesFor typeDisplay nodeTypes2 k) ->
  extends subj m1 m2 ->
  extends subj (fst (buildStep typeDisplay nodeTypes1 (m1, ls) triple))
          (fst (buildStep typeDisplay nodeTypes2 (m2, ls) triple)) /\
  snd (buildStep typeDisplay nodeTypes1 (m1, ls) triple) =
  snd (buildStep typeDisplay nodeTypes2 (m2, ls) triple).
Proof.
  intros Hty H.
  assert (Hplain : forall k, k <> subj ->
            plainNode typeDisplay nodeTypes1 k = plainNode typeDisplay nodeTypes2 k)
    by (intros k Hk; unfold plainNode; rewrite (Hty k Hk); reflexivity).
  unfold buildStep.
  destruct (String.eqb _ "type"); [destruct typeDisplay|
    destruct (N3.isNamedNode (N3.object triple))];
    cbn [fst snd]; split; try reflexivity;
    repeat (apply extends_setIfAbsent; [reflexivity | auto |]); exact H.
Qed.

Lemma extends_fold typeDisplay nodeTypes1 nodeTypes2 triples m1 m2 ls :
  (forall k, k <> subj -> typesFor typeDisplay nodeTypes1 k = typesFor typeDisplay nodeTypes2 k) ->
  extends subj m1 m2 ->
  extends subj (fst (fold_left (buildStep typeDisplay nodeTypes1) triples (m1, ls)))
          (fst (fold_left (buildStep typeDisplay nodeTypes2) triples (m2, ls))) /\
  snd (fold_left (buildStep typeDisplay nodeTypes1) triples (m1, ls)) =
  snd (fold_left (buildStep typeDisplay nodeTypes2) triples (m2, ls)).
Proof.
  intros Hty. revert m1 m2 ls. induction triples as [|t triples IH]; intros m1 m2 ls H;
    cbn [fold_left].
  - split; [exact H | reflexivity].
  - destruct (extends_buildStep typeDisplay nodeTypes1 nodeTypes2 m1 m2 ls t Hty H) as [He Hl].
    destruct (buildStep typeDisplay nodeTypes1 (m1, ls) t) as [m1' ls1].
    destruct (buildStep typeDisplay nodeTypes2 (m2, ls) t) as [m2' ls2].
    cbn [fst snd] in *. subst ls2. apply IH. exact He.
Qed.
End LiteralObject.

(** C8 (as amended): a statement whose object is not a resource adds no
    link and no node for its object: the links are those of the projection
    without the statement, and every node is the statement's subject node or
    a node of the projection without the statement.  This holds under every
    policy for a predicate that does not shorten to [type], and under [Off]
    and [On] for every predicate; a [type] statement under [Nodes] is left
    open. *)
Theorem literal_object_adds_nothing (typeDisplay : TypeDisplay)
    (before after : list N3.Triple) (s : N3.Triple) :
  N3.isNamedNode (N3.object s) = false ->
  shortenURI (N3.value (N3.predicate s)) <> "type" \/ typeDisplay <> Nodes ->
  links (triplesToGraph typeDisplay (before ++ s :: after)) =
    links (triplesToGraph typeDisplay (before ++ after)) /\
  forall n, n ∈ nodes (triplesToGraph typeDisplay (before ++ s :: after)) ->
    Node.id n = shortenURI (N3.value (N3.subject s)) \/
    n ∈ nodes (triplesToGraph typeDisplay (before ++ after)).
Proof.
  intros Hlit Hcase.
  assert (Hno : emitsLink typeDisplay s = false).
  { unfold emitsLink. rewrite Hlit.
    destruct (String.eqb_spec (shortenURI (N3.value (N3.predicate s))) "type") as [Hp|_];
      [|reflexivity].
    destruct Hcase as [Hc|Hc]; [contradiction|]. destruct typeDisplay; congruence. }
  set (subj := shortenURI (N3.value (N3.subject s))).
  pose proof (fun k (Hk : k <> subj) => typesFor_without typeDisplay before after s k Hk) as Hty.
  unfold triplesToGraph.
  set (nodeTypes1 := fold_left typeIndexStep (before ++ s :: after) ∅) in *.
  set (nodeTypes2 := fold_left typeIndexStep (before ++ after) ∅) in *.
  rewrite !fold_left_app. cbn [fold_left].
  destruct (extends_fold subj typeDisplay nodeTypes1 nodeTypes2 before [] [] [] Hty
              (extends_nil subj)) as [He0 Hl0].
  destruct (fold_left (buildStep typeDisplay nodeTypes1) before ([], [])) as [m1 ls1].
  destruct (fold_left (buildStep typeDisplay nodeTypes2) before ([], [])) as [m2 ls2].
  cbn [fst snd] in He0, Hl0. subst ls2.
  rewrite (buildStep_no_link typeDisplay nodeTypes1 m1 ls1 s Hno). fold subj.
  destruct (extends_fold subj typeDisplay nodeTypes1 nodeTypes2 after _ m2 ls1 Hty
              (extends_left subj (plainNode typeDisplay nodeTypes1 subj) m1 m2 eq_refl He0))
    as [(_ & _ & Hin) Hl].
  destruct (fold_left _ after (setIfAbsent _ _ _, ls1)) as [m1' ls1'].
  destruct (fold_left _ after (m2, ls1)) as [m2' ls2'].
  cbn [fst snd nodes links] in *. split; [exact Hl|].
  intros n Hn. unfold JSMap.values in *.
  apply list_elem_of_fmap in Hn as ([k n'] & -> & Hkv).
  destruct (Hin _ Hkv) as [Hid | Hkv2]; [left; exact Hid | right].
  apply list_elem_of_fmap. exists (k, n'). auto.
Qed.

Lemma literal_object_adds_nothing_witness :
  links (triplesToGraph On (aPersonKnowsB ++ N3.mkTriple ex_b rdfType (lit "admin") :: [])) =
    links (triplesToGraph On (aPersonKnowsB ++ [])) /\
  forall n, n ∈ nodes (triplesToGraph On (aPersonKnowsB ++ N3.mkTriple ex_b rdfType (lit "admin") :: [])) ->
    Node.id n = shortenURI (N3.value (N3.subject (N3.mkTriple ex_b rdfType (lit "admin")))) \/
    n ∈ nodes (triplesToGraph On (aPersonKnowsB ++ [])).
Proof.
  apply (literal_object_adds_nothing On aPersonKnowsB [] (N3.mkTriple ex_b rdfType (lit "admin"))).
  - reflexivity.
  - right. discriminate.
Defined.

(** C8 as stated fails.  The literal ["a"] of [a name "a"] shortens to the id
    of the subject node, so a node with the literal's value is in the output;
    and under [Nodes] the statement [a type "admin"], whose object is a
    literal, emits the link [a -type-> admin]. *)
Lemma literal_exclusion_counterexample :
  ~ (forall typeDisplay triples s, s ∈ triples ->
       N3.isNamedNode (N3.object s) = false ->
       shortenURI (N3.value (N3.object s))
         ∉ map Node.id (nodes (triplesToGraph typeDisplay triples))) /\
  ~ (forall typeDisplay triples s, s ∈ triples ->
       N3.isNamedNode (N3.object s) = false ->
       newLink (shortenURI (N3.value (N3.subject s)))
               (shortenURI (N3.value (N3.object s)))
               (shortenURI (N3.value (N3.predicate s)))
         ∉ links (triplesToGraph typeDisplay triples)).
Proof.
  split; intros H.
  - apply (H Off [N3.mkTriple ex_a ex_name (lit "a")] (N3.mkTriple ex_a ex_name (lit "a")));
      [left | reflexivity | vm_compute; left].
  - apply (H Nodes [N3.mkTriple ex_a rdfType (lit "admin")]
             (N3.mkTriple ex_a rdfType (lit "admin")));
      [left | reflexivity | vm_compute; left].
Qed.

(** ** Timeline controller: what the helpers leave alone *)

Lemma renderState_index v i a :
  currentStateIndex (renderState v i a) = currentStateIndex v.
Proof. unfold renderState. repeat case_match; reflexivity. Qed.

Lemma renderState_flags v i a :
  isLive (renderState v i a) = isLive v /\ isPaused (renderState v i a) = isPaused v.
Proof. unfold renderState. repeat case_match; split; reflexivity. Qed.

Lemma renderState_length v i a :
  length (states (renderState v i a)) = length (states v).
Proof.
  unfold renderState. repeat case_match; simpl; try reflexivity.
  apply length_alter.
Qed.

Lemma renderState_calls v i a :
  renderCalls (renderState v i a) = renderCalls v ++ [(i, a)].
Proof. unfold renderState. repeat case_match; reflexivity. Qed.

Lemma renderState_mode v i a : mode (renderState v i a) = mode v.
Proof.
  unfold mode. destruct (renderState_flags v i a) as [-> ->]. reflexivity.
Qed.

Lemma renderState_maxTick v i a : maxTick (renderState v i a) = maxTick v.
Proof. unfold maxTick. rewrite renderState_length. reflexivity. Qed.

Lemma updateLiveStatus_mode v :
  mode (updateLiveStatus v) =
  if (currentStateIndex v =? maxTick v) && negb (isPaused v) then Live else Paused.
Proof.
  unfold mode, updateLiveStatus, maxTick. simpl.
  destruct ((currentStateIndex v =? _) && negb (isPaused v)); reflexivity.
Qed.

Lemma seekToTick_index v tick : currentStateIndex (seekToTick v tick) = tick.
Proof. unfold seekToTick. rewrite renderState_index. reflexivity. Qed.

Lemma seekToTick_mode v tick :
  mode (seekToTick v tick) =
  if (tick =? maxTick v) && negb (isPaused v) then Live else Paused.
Proof.
  unfold seekToTick. rewrite renderState_mode, updateLiveStatus_mode. reflexivity.
Qed.

Lemma seekToTime_index v t s0 rest :
  states v = s0 :: rest ->
  currentStateIndex (seekToTime v t) = closestIndexTo t s0 rest.
Proof.
  intros H. unfold seekToTime. rewrite H, renderState_index. reflexivity.
Qed.

Lemma seekToTime_mode v t s0 rest :
  states v = s0 :: rest ->
  mode (seekToTime v t) =
  if (closestIndexTo t s0 rest =? maxTick v) && negb (isPaused v) then Live else Paused.
Proof.
  intros H. unfold seekToTime. rewrite H, renderState_mode, updateLiveStatus_mode.
  unfold maxTick. simpl. rewrite H. reflexivity.
Qed.

(** ** Seek by time *)

Lemma Qltb_lt (x y : Q) : Qltb x y = true <-> (x < y)%Q.
Proof.
  unfold Qltb. rewrite negb_true_iff, <- not_true_iff_false, Qle_bool_iff.
  split; [apply Qnot_le_lt | apply Qlt_not_le].
Qed.

Lemma Qltb_ge (x y : Q) : Qltb x y = false <-> (y <= x)%Q.
Proof. unfold Qltb. rewrite negb_false_iff. apply Qle_bool_iff. Qed.

(** The loop invariant: [closestIndex] is the first nearest tick among the
    snapshots already visited, and [minDiff] is its distance. *)
Lemma closestFrom_firstNearest (t : Q) (rest seen : list Snapshot) (closestIndex : Z) (sk : Snapshot) :
  firstNearest t seen closestIndex ->
  seen !! Z.to_nat closestIndex = Some sk ->
  firstNearest t (seen ++ rest)
    (closestFrom t rest (Z.of_nat (length seen)) closestIndex (diffTo t sk)).
Proof.
  revert seen closestIndex sk.
  induction rest as [|s rest IH]; intros seen ci sk Hmin Hsk; cbn [closestFrom].
  - rewrite app_nil_r. exact Hmin.
  - destruct Hmin as (Hrange & sk' & Hsk' & Hall).
    rewrite Hsk in Hsk'. injection Hsk' as <-.
    replace (seen ++ s :: rest) with ((seen ++ [s]) ++ rest)
      by (rewrite <- app_assoc; reflexivity).
    replace (Z.of_nat (length seen) + 1) with (Z.of_nat (length (seen ++ [s])))
      by (rewrite length_app; simpl; lia).
    fold (diffTo t s).
    destruct (Qltb (diffTo t s) (diffTo t sk)) eqn:Hlt.
    + apply Qltb_lt in Hlt. apply IH.
      * split; [rewrite length_app; simpl; lia|].
        exists s. rewrite Nat2Z.id. split; [apply list_lookup_middle; reflexivity|].
        intros j sj Hj. apply lookup_snoc_Some in Hj as [[Hjlt Hj] | [Hjeq <-]].
        -- destruct (Hall j sj Hj) as [Hle _].
           split; [apply Qlt_le_weak|intros _]; eapply Qlt_le_trans; eauto.
        -- split; [apply Qle_refl | lia].
      * rewrite Nat2Z.id. apply list_lookup_middle. reflexivity.
    + apply Qltb_ge in Hlt.
      assert (Hci : (Z.to_nat ci < length seen)%nat) by lia.
      apply IH.
      * split; [rewrite length_app; simpl; lia|].
        exists sk. split; [rewrite lookup_app_l; assumption|].
        intros j sj Hj. apply lookup_snoc_Some in Hj as [[Hjlt Hj] | [Hjeq <-]].
        -- exact (Hall j sj Hj).
        -- split; [exact Hlt | lia].
      * rewrite lookup_app_l; assumption.
Qed.

Lemma closestIndexTo_firstNearest (t : Q) (s0 : Snapshot) (rest : list Snapshot) :
  firstNearest t (s0 :: rest) (closestIndexTo t s0 rest).
Proof.
  unfold closestIndexTo. fold (diffTo t s0).
  apply (closestFrom_firstNearest t rest [s0] 0 s0); [|reflexivity].
  split; [simpl; lia|]. exists s0. split; [reflexivity|].
  intros [|j] sj Hj; simpl in Hj; [|discriminate].
  injection Hj as <-. split; [apply Qle_refl | lia].
Qed.

(** *** The scan on doubles *)

Lemma ltb_keyLt (x y : Double.number) :
  x <> S754_nan -> y <> S754_nan ->
  (Double.ltb x y = true <-> keyLt (orderKey x) (orderKey y)).
Proof.
  intros Hx Hy. unfold Double.ltb, SFltb, SFcompare, keyLt, orderKey.
  destruct x as [sx|sx| |sx mx ex]; try congruence;
    destruct y as [sy|sy| |sy my ey]; try congruence;
    try destruct sx; try destruct sy; cbn [fst snd];
    try (split; [discriminate | lia]); try (split; [lia | reflexivity]).
  - change (Pos.compare_cont Eq mx my) with (Pos.compare mx my).
    destruct (Z.compare_spec ex ey); [destruct (Pos.compare_spec mx my)| |];
      cbn [CompOpp]; split; intros H'; try discriminate H'; try reflexivity; lia.
  - change (Pos.compare_cont Eq mx my) with (Pos.compare mx my).
    destruct (Z.compare_spec ex ey); [destruct (Pos.compare_spec mx my)| |];
      split; intros H'; try discriminate H'; try reflexivity; lia.
Qed.

Lemma ltb_not_nan (x y : Double.number) :
  Double.ltb x y = true -> x <> S754_nan /\ y <> S754_nan.
Proof.
  unfold Double.ltb, SFltb, SFcompare.
  destruct x, y; try discriminate; split; discriminate.
Qed.

(** A number below the running minimum is below everything the minimum is
    not above. *)
Lemma ltb_below_all (a b c : Double.number) :
  c <> S754_nan -> Double.ltb a b = true -> Double.ltb c b = false ->
  Double.ltb a c = true.
Proof.
  intros Hc Hab Hcb. destruct (ltb_not_nan a b Hab) as [Ha Hb].
  apply (ltb_keyLt a b Ha Hb) in Hab. apply (ltb_keyLt a c Ha Hc).
  assert (Hn : ~ keyLt (orderKey c) (orderKey b))
    by (intros H; apply (ltb_keyLt c b Hc Hb) in H; congruence).
  destruct (orderKey a) as [[a1 a2] a3], (orderKey b) as [[b1 b2] b3],
           (orderKey c) as [[c1 c2] c3].
  unfold keyLt in *. cbn [fst snd] in *. lia.
Qed.

Lemma closestFromD_firstLeast (t : Double.number) (rest seen : list Double.number)
    (closestIndex : Z) (tk : Double.number) :
  Forall (fun ts => absDiff t ts <> S754_nan) (seen ++ rest) ->
  firstLeast t seen closestIndex ->
  seen !! Z.to_nat closestIndex = Some tk ->
  firstLeast t (seen ++ rest)
    (closestFromD t rest (Z.of_nat (length seen)) closestIndex (absDiff t tk)).
Proof.
  revert seen closestIndex tk.
  induction rest as [|ts rest IH]; intros seen ci tk Hnan Hmin Htk; cbn [closestFromD].
  - rewrite app_nil_r. exact Hmin.
  - destruct Hmin as (Hrange & tk' & Htk' & Hall).
    rewrite Htk in Htk'. injection Htk' as <-.
    replace (seen ++ ts :: rest) with ((seen ++ [ts]) ++ rest) in *
      by (rewrite <- app_assoc; reflexivity).
    replace (Z.of_nat (length seen) + 1) with (Z.of_nat (length (seen ++ [ts])))
      by (rewrite length_app; cbn [length]; lia).
    assert (Hseen : forall j tj, seen !! j = Some tj -> absDiff t tj <> S754_nan).
    { intros j tj Hj. rewrite Forall_forall in Hnan. apply Hnan.
      apply elem_of_app. left. apply elem_of_app. left.
      apply list_elem_of_lookup. exists j. exact Hj. }
    assert (Hts : absDiff t ts <> S754_nan).
    { rewrite Forall_forall in Hnan. apply Hnan.
      apply elem_of_app. left. apply elem_of_app. right. left. }
    destruct (Double.ltb (absDiff t ts) (absDiff t tk)) eqn:Hlt.
    + apply IH; [exact Hnan | |].
      * split; [rewrite length_app; cbn [length]; lia|].
        exists ts. rewrite Nat2Z.id. split; [apply list_lookup_middle; reflexivity|].
        intros j tj Hj. apply lookup_snoc_Some in Hj as [[Hjlt Hj] | [Hjeq <-]].
        -- destruct (Hall j tj Hj) as [Hge _].
           pose proof (Hseen j tj Hj) as Htj.
           pose proof (ltb_below_all _ _ _ Htj Hlt Hge) as Hbelow.
           split; [|intros _; exact Hbelow].
           destruct (Double.ltb (absDiff t tj) (absDiff t ts)) eqn:Hrev; [|reflexivity].
           exfalso.
           apply (ltb_keyLt _ _ Htj Hts) in Hrev. apply (ltb_keyLt _ _ Hts Htj) in Hbelow.
           destruct (orderKey (absDiff t tj)) as [[a1 a2] a3],
                    (orderKey (absDiff t ts)) as [[b1 b2] b3].
           unfold keyLt in *. cbn [fst snd] in *. lia.
        -- split; [|lia].
           destruct (Double.ltb (absDiff t ts) (absDiff t ts)) eqn:Hrefl; [|reflexivity].
           exfalso. apply (ltb_keyLt _ _ Hts Hts) in Hrefl.
           destruct (orderKey (absDiff t ts)) as [[a1 a2] a3].
           unfold keyLt in *. cbn [fst snd] in *. lia.
      * rewrite Nat2Z.id. apply list_lookup_middle. reflexivity.
    + assert (Hci : (Z.to_nat ci < length seen)%nat) by lia.
      apply IH; [exact Hnan | |].
      * split; [rewrite length_app; cbn [length]; lia|].
        exists tk. split; [rewrite lookup_app_l; assumption|].
        intros j tj Hj. apply lookup_snoc_Some in Hj as [[Hjlt Hj] | [Hjeq <-]].
        -- exact (Hall j tj Hj).
        -- split; [exact Hlt | lia].
      * rewrite lookup_app_l; assumption.
Qed.

Lemma ltb_irrefl (x : Double.number) : Double.ltb x x = false.
Proof.
  destruct (Double.ltb x x) eqn:H; [|reflexivity]. exfalso.
  destruct (ltb_not_nan x x H) as [Hx _]. apply (ltb_keyLt x x Hx Hx) in H.
  destruct (orderKey x) as [[a1 a2] a3]. unfold keyLt in H. cbn [fst snd] in H. lia.
Qed.

(** C7 (as amended): on a non-empty history, when no computed difference is
    NaN, [seekToTime(t)] selects the first tick at which
    [Math.abs(timestamp - t)], as computed in double precision, is least: no
    tick has a smaller computed difference and every earlier tick has a
    strictly larger one.  With snapshots at 1.0 and 3.0, [seekToTime(2.0)]
    selects tick 0. *)
Theorem seekToTime_first_least_computed :
  (forall timestamps timeValue,
     timestamps <> [] ->
     Forall (fun ts => absDiff timeValue ts <> S754_nan) timestamps ->
     exists k, seekToTimeIndex timestamps timeValue = Some k /\
               firstLeast timeValue timestamps k) /\
  (timestampOf 1000 = Double.ofZ 1 /\ timestampOf 3000 = Double.ofZ 3 /\
   seekToTimeIndex [timestampOf 1000; timestampOf 3000] (Double.ofZ 2) = Some 0).
Proof.
  split; [|repeat split; vm_compute; reflexivity].
  intros timestamps t Hne Hnan. destruct timestamps as [|ts0 rest]; [congruence|].
  exists (closestFromD t rest 1 0 (absDiff t ts0)). split; [reflexivity|].
  apply (closestFromD_firstLeast t rest [ts0] 0 ts0); [exact Hnan | | reflexivity].
  split; [cbn [length]; lia|]. exists ts0. split; [reflexivity|].
  intros [|j] tj Hj; cbn in Hj; [|discriminate].
  injection Hj as <-. split; [apply ltb_irrefl | lia].
Qed.

Lemma seekToTime_first_least_computed_witness :
  exists k, seekToTimeIndex [timestampOf 1000; timestampOf 3000] (Double.ofZ 2) = Some k /\
            firstLeast (Double.ofZ 2) [timestampOf 1000; timestampOf 3000] k.
Proof.
  apply (proj1 seekToTime_first_least_computed
           [timestampOf 1000; timestampOf 3000] (Double.ofZ 2)).
  - discriminate.
  - repeat constructor; vm_compute; discriminate.
Defined.

(** C7 as stated fails.  The snapshots taken 2067 ms and 269527 ms after the
    start carry the doubles nearest to 2.067 and 269.527; for the double
    nearest to 135.797 both computed differences round to the same number,
    so the scan keeps tick 0, although the timestamp of tick 1 is strictly
    nearer. *)
Lemma seekToTime_rounding_counterexample :
  absDiff near135_797 (timestampOf 2067) = absDiff near135_797 (timestampOf 269527) /\
  seekToTimeIndex [timestampOf 2067; timestampOf 269527] near135_797 = Some 0 /\
  (Qabs (Double.toQ (timestampOf 269527) - Double.toQ near135_797) <
   Qabs (Double.toQ (timestampOf 2067) - Double.toQ near135_797))%Q.
Proof. repeat split; vm_compute; reflexivity. Qed.

(** ** Seek by tick *)

(** C3 (as amended): [seekToTick] does not clamp; the playhead index becomes
    the tick it is given, and the mode becomes [Live] only when that tick is
    [maxTick] and the controller was not paused.  On a history of five
    snapshots, [seekToTick(999)] leaves index 999 and mode [Paused], and
    [seekToTick(2)] leaves index 2 and mode [Paused]. *)
Theorem seekToTick_stores_its_argument :
  (forall v tick,
     currentStateIndex (seekToTick v tick) = tick /\
     mode (seekToTick v tick) =
       if (tick =? maxTick v) && negb (isPaused v) then Live else Paused) /\
  (length (states fiveSnapshots) = 5%nat /\
   currentStateIndex (seekToTick fiveSnapshots 999) = 999 /\
   mode (seekToTick fiveSnapshots 999) = Paused /\
   currentStateIndex (seekToTick fiveSnapshots 2) = 2 /\
   mode (seekToTick fiveSnapshots 2) = Paused).
Proof.
  split.
  - intros v tick. split; [apply seekToTick_index | apply seekToTick_mode].
  - repeat split; vm_compute; reflexivity.
Qed.

(** C3 as stated fails: on five snapshots [seekToTick(999)] does not end at
    index 4 in mode [Live]. *)
Lemma seekToTick_clamp_counterexample :
  length (states fiveSnapshots) = 5%nat /\
  ~ (currentStateIndex (seekToTick fiveSnapshots 999) = 4 /\
     mode (seekToTick fiveSnapshots 999) = Live).
Proof.
  split; [vm_compute; reflexivity|].
  intros [H _]. vm_compute in H. discriminate H.
Qed.

(** ** Mode after a seek *)

Lemma consistent_mode (v : Viewer) :
  isPaused v = negb (isLive v) -> (isPaused v = false <-> mode v = Live).
Proof.
  unfold mode. intros ->. destruct (isLive v); simpl; split; congruence.
Qed.

Lemma live_after_seek (v : Viewer) (k : Z) :
  isPaused v = negb (isLive v) ->
  (if (k =? maxTick v) && negb (isPaused v) then Live else Paused) = Live <->
  k = maxTick v /\ mode v = Live.
Proof.
  intros Hc. rewrite <- (consistent_mode v Hc).
  destruct (Z.eqb_spec k (maxTick v)) as [Hk|Hk], (isPaused v);
    simpl; intuition congruence.
Qed.

(** Every state the operations reach keeps the two flags opposite. *)
Lemma reachable_consistent (v : Viewer) :
  reachable v -> isPaused v = negb (isLive v).
Proof.
  induction 1 as [now | v op _ IH _]; [reflexivity|].
  destruct op as [t|tick| | |triples now]; simpl.
  - unfold seekToTime. destruct (states v); [exact IH|].
    destruct (renderState_flags (updateLiveStatus (setCurrentStateIndex v (closestIndexTo t s l)))
                (currentStateIndex (updateLiveStatus (setCurrentStateIndex v (closestIndexTo t s l))))
                false) as [-> ->].
    reflexivity.
  - unfold seekToTick.
    destruct (renderState_flags (updateLiveStatus (setCurrentStateIndex v tick))
                (currentStateIndex (updateLiveStatus (setCurrentStateIndex v tick)))
                false) as [-> ->].
    reflexivity.
  - unfold goToLive. destruct (0 <? _); [reflexivity | exact IH].
  - unfold timelineClick. destruct (isLive v) eqn:Hl; [reflexivity|].
    rewrite Hl. exact IH.
  - unfold addNewState. destruct (isDuplicate v _); [exact IH|].
    cbn [isLive isPaused]. destruct (isLive v && negb (isPaused v)); [|exact IH].
    match goal with |- context [renderState ?w ?i ?a] =>
      destruct (renderState_flags w i a) as [-> ->] end.
    exact IH.
Qed.

(** C4 (as amended): after [seekToTick(t)], and after [seekToTime] resolving
    to tick [t] on a non-empty history, the mode is [Live] if and only if
    [t] equals [maxTick] and the controller was in [Live] mode before the
    seek; a paused controller stays [Paused] wherever the seek lands. *)
Theorem seek_mode_live_iff (v : Viewer) :
  isPaused v = negb (isLive v) ->
  (forall tick,
     mode (seekToTick v tick) = Live <-> tick = maxTick v /\ mode v = Live) /\
  (forall t, states v <> [] ->
     (mode (seekToTime v t) = Live <->
      currentStateIndex (seekToTime v t) = maxTick v /\ mode v = Live)).
Proof.
  intros Hc. split.
  - intros tick. rewrite seekToTick_mode. apply live_after_seek. exact Hc.
  - intros t Hne. destruct (states v) as [|s0 rest] eqn:Hst; [congruence|].
    rewrite (seekToTime_mode v t s0 rest Hst), (seekToTime_index v t s0 rest Hst).
    apply live_after_seek. exact Hc.
Qed.

Lemma seek_mode_live_iff_witness :
  (forall tick,
     mode (seekToTick fiveSnapshots tick) = Live <->
     tick = maxTick fiveSnapshots /\ mode fiveSnapshots = Live) /\
  (forall t, states fiveSnapshots <> [] ->
     (mode (seekToTime fiveSnapshots t) = Live <->
      currentStateIndex (seekToTime fiveSnapshots t) = maxTick fiveSnapshots /\
      mode fiveSnapshots = Live)).
Proof.
  apply (seek_mode_live_iff fiveSnapshots). vm_compute. reflexivity.
Defined.

(** C4 as stated fails: a paused controller that seeks exactly to [maxTick]
    stays [Paused]. *)
Lemma paused_seek_to_maxTick_counterexample :
  mode (timelineClick fiveSnapshots) = Paused /\
  maxTick (timelineClick fiveSnapshots) = 4 /\
  ~ (mode (seekToTick (timelineClick fiveSnapshots) 4) = Live).
Proof.
  repeat split; try (vm_compute; reflexivity).
  intros H. vm_compute in H. discriminate H.
Qed.

(** ** Appending a snapshot *)

Lemma addNewState_duplicate v triples now :
  isDuplicate v (triplesToGraph (typeDisplay v) triples) = true ->
  addNewState v triples now = v.
Proof. intros H. unfold addNewState. rewrite H. reflexivity. Qed.

Lemma addNewState_length v triples now :
  isDuplicate v (triplesToGraph (typeDisplay v) triples) = false ->
  length (states (addNewState v triples now)) = S (length (states v)).
Proof.
  intros H. unfold addNewState. rewrite H. cbn [isLive isPaused].
  destruct (isLive v && negb (isPaused v)).
  - rewrite renderState_length. simpl. rewrite length_app. simpl. lia.
  - simpl. rewrite length_app. simpl. lia.
Qed.

Lemma addNewState_live v triples now :
  isDuplicate v (triplesToGraph (typeDisplay v) triples) = false ->
  mode v = Live ->
  currentStateIndex (addNewState v triples now) = maxTick (addNewState v triples now) /\
  renderCalls (addNewState v triples now) =
    renderCalls v ++ [(maxTick (addNewState v triples now), true)].
Proof.
  intros H Hm. unfold maxTick. rewrite (addNewState_length v triples now H).
  unfold addNewState. rewrite H. cbn [isLive isPaused].
  unfold mode in Hm. destruct (isLive v && negb (isPaused v)); [|discriminate].
  rewrite renderState_index, renderState_calls. simpl.
  rewrite length_app. simpl.
  replace (Z.of_nat (length (states v) + 1)) with (Z.of_nat (S (length (states v)))) by lia.
  split; reflexivity.
Qed.

Lemma addNewState_paused v triples now :
  mode v = Paused ->
  currentStateIndex (addNewState v triples now) = currentStateIndex v /\
  renderCalls (addNewState v triples now) = renderCalls v.
Proof.
  intros Hm. unfold addNewState.
  destruct (isDuplicate v _); [split; reflexivity|]. cbn [isLive isPaused].
  unfold mode in Hm. destruct (isLive v && negb (isPaused v)); [discriminate|].
  split; reflexivity.
Qed.

Lemma mode_cases v : mode v = Live \/ mode v = Paused.
Proof. destruct (mode v); auto. Qed.

(** C6: when a new snapshot is appended, a controller in [Live] mode moves
    the playhead to the newest tick and requests a render of it with
    [animate = true]; a [Paused] controller keeps its index and requests no
    render.  With three snapshots, a live controller ends at index 3, and one
    paused at index 1 stays at index 1. *)
Theorem append_advances_only_when_live :
  (forall v triples now,
     isDuplicate v (triplesToGraph (typeDisplay v) triples) = false ->
     length (states (addNewState v triples now)) = S (length (states v)) /\
     (mode v = Live ->
        currentStateIndex (addNewState v triples now) = maxTick (addNewState v triples now) /\
        renderCalls (addNewState v triples now) =
          renderCalls v ++ [(maxTick (addNewState v triples now), true)]) /\
     (mode v = Paused ->
        currentStateIndex (addNewState v triples now) = currentStateIndex v /\
        renderCalls (addNewState v triples now) = renderCalls v)) /\
  (length (states threeSnapshots) = 3%nat /\ mode threeSnapshots = Live /\
   currentStateIndex (addNewState threeSnapshots (take 4 ring) 4000) = 3) /\
  (mode (seekToTick threeSnapshots 1) = Paused /\
   length (states (addNewState (seekToTick threeSnapshots 1) (take 4 ring) 4000)) = 4%nat /\
   currentStateIndex (addNewState (seekToTick threeSnapshots 1) (take 4 ring) 4000) = 1).
Proof.
  split; [|repeat split; vm_compute; reflexivity].
  intros v triples now H. split; [apply addNewState_length; exact H|].
  split; [apply addNewState_live; exact H | apply addNewState_paused].
Qed.

Lemma append_advances_only_when_live_witness :
  length (states (addNewState (seekToTick threeSnapshots 1) (take 4 ring) 4000)) =
    S (length (states (seekToTick threeSnapshots 1))) /\
  currentStateIndex (addNewState (seekToTick threeSnapshots 1) (take 4 ring) 4000) =
    currentStateIndex (seekToTick threeSnapshots 1).
Proof.
  destruct (proj1 append_advances_only_when_live
              (seekToTick threeSnapshots 1) (take 4 ring) 4000) as (Hlen & _ & Hp).
  - vm_compute. reflexivity.
  - split; [exact Hlen|]. apply Hp. vm_compute. reflexivity.
Defined.

(** ** The duplicate check *)

(** While the controller is paused the last snapshot is not handed to the
    renderer, and a second delivery of the same statements is dropped. *)
Lemma reappend_dropped_when_paused v triples t1 t2 :
  mode v = Paused ->
  addNewState (addNewState v triples t1) triples t2 = addNewState v triples t1.
Proof.
  intros Hm. unfold addNewState at 2 3.
  destruct (isDuplicate v (triplesToGraph (typeDisplay v) triples)) eqn:Hd.
  - apply addNewState_duplicate. exact Hd.
  - cbn [isLive isPaused]. unfold mode in Hm.
    destruct (isLive v && negb (isPaused v)); [discriminate|].
    apply addNewState_duplicate. unfold isDuplicate. cbn [states typeDisplay].
    rewrite last_snoc. cbn [data]. apply bool_decide_eq_true. reflexivity.
Qed.

(** A freshly projected node has no [index]. *)
Lemma setIfAbsent_fresh (k : string) (n : Node.t) (m : list (string * Node.t)) :
  Node.index n = None ->
  (forall kv, kv ∈ m -> Node.index (snd kv) = None) ->
  forall kv, kv ∈ setIfAbsent k n m -> Node.index (snd kv) = None.
Proof.
  intros Hn Hm kv Hkv. apply elem_of_setIfAbsent in Hkv as [Hkv | ->]; auto.
Qed.

Lemma buildStep_fresh typeDisplay nodeTypes acc triple :
  (forall kv, kv ∈ fst acc -> Node.index (snd kv) = None) ->
  forall kv, kv ∈ fst (buildStep typeDisplay nodeTypes acc triple) ->
    Node.index (snd kv) = None.
Proof.
  destruct acc as [m ls]. unfold buildStep. intros Hm.
  destruct (String.eqb _ "type"); [destruct typeDisplay|
    destruct (N3.isNamedNode (N3.object triple))];
    cbn [fst]; repeat (apply setIfAbsent_fresh; [reflexivity|]); exact Hm.
Qed.

Lemma projection_fresh typeDisplay triples n :
  n ∈ nodes (triplesToGraph typeDisplay triples) -> Node.index n = None.
Proof.
  unfold triplesToGraph.
  set (nodeTypes := fold_left typeIndexStep triples ∅).
  pose proof (fold_left_invariant
                (fun acc => forall kv, kv ∈ fst acc -> Node.index (snd kv) = None)
                (buildStep typeDisplay nodeTypes) triples ([], [])) as H.
  destruct (fold_left (buildStep typeDisplay nodeTypes) triples ([], [])) as [m ls].
  cbn [nodes]. intros Hn. unfold JSMap.values in Hn.
  apply list_elem_of_fmap in Hn as (kv & -> & Hkv).
  apply H; [| |exact Hkv].
  - intros kv' Hkv'. inversion Hkv'.
  - intros a' x Ha' _. apply buildStep_fresh. exact Ha'.
Qed.

(** Handing a graph with at least one fresh node to the simulation changes
    the graph object. *)
Lemma simulate_changes (g : GraphData) :
  nodes g <> [] -> (forall n, n ∈ nodes g -> Node.index n = None) -> simulate g <> g.
Proof.
  intros Hne Hfresh Heq. destruct g as [[|n ns] ls]; [contradiction|].
  apply (f_equal nodes) in Heq. unfold simulate in Heq. cbn [nodes] in Heq.
  unfold initializeNodes in Heq. rewrite imap_cons in Heq.
  injection Heq as Hn _. apply (f_equal Node.index) in Hn. cbn [Node.index] in Hn.
  rewrite (Hfresh n) in Hn by left. discriminate Hn.
Qed.

(** In live mode the appended snapshot is rendered at once (unless its tick
    is the one last rendered), so unless the graph has no node, the same
    statements delivered again are appended a second time. *)
Lemma live_reappend_appended_again v triples t1 t2 :
  mode v = Live ->
  isDuplicate v (triplesToGraph (typeDisplay v) triples) = false ->
  lastRenderedIndex v <> Z.of_nat (length (states v)) ->
  nodes (triplesToGraph (typeDisplay v) triples) <> [] ->
  length (states (addNewState (addNewState v triples t1) triples t2)) =
    S (S (length (states v))).
Proof.
  intros Hm Hd Hlast Hne.
  set (g := triplesToGraph (typeDisplay v) triples) in *.
  set (snap := mkSnapshot g (inject_Z (t1 - startTime v) / 1000)%Q).
  assert (H1 : states (addNewState v triples t1) = states v ++ [simulateSnapshot snap] /\
               typeDisplay (addNewState v triples t1) = typeDisplay v).
  { unfold addNewState. fold g. rewrite Hd. cbn [isLive isPaused]. fold snap.
    unfold mode in Hm. destruct (isLive v && negb (isPaused v)); [|discriminate].
    unfold renderState, setCurrentStateIndex.
    cbn [states currentStateIndex lastRenderedIndex typeDisplay].
    rewrite length_app. cbn [length].
    replace (Z.of_nat (length (states v) + 1) - 1) with (Z.of_nat (length (states v))) by lia.
    destruct (Z.ltb_spec (Z.of_nat (length (states v))) 0) as [?|_]; [lia|].
    destruct (Z.geb_spec (Z.of_nat (length (states v))) (Z.of_nat (length (states v) + 1)))
      as [?|_]; [lia|].
    destruct (Z.eqb_spec (Z.of_nat (length (states v))) (lastRenderedIndex v))
      as [?|_]; [congruence|].
    cbn [orb states typeDisplay]. split; [|reflexivity].
    rewrite Nat2Z.id.
    replace (length (states v)) with (length (states v) + 0)%nat at 1 by lia.
    rewrite alter_app_r. reflexivity. }
  destruct H1 as [Hst Htd].
  rewrite addNewState_length.
  - rewrite Hst, length_app. cbn [length]. lia.
  - rewrite Htd. fold g. unfold isDuplicate. rewrite Hst, last_snoc.
    cbn [simulateSnapshot data snap]. apply bool_decide_eq_false.
    apply simulate_changes; [exact Hne|].
    intros n Hn. apply (projection_fresh (typeDisplay v) triples n Hn).
Qed.

(** C2 (the code at the failing input): a fresh viewer is live, so the first
    snapshot is rendered at once and the simulation writes into its node and
    link objects; the same statements delivered again then compare unequal
    to it, and a second snapshot is appended. *)
Theorem live_reappend_is_not_dropped :
  mode (newViewer 0) = Live /\
  length (states (addNewState (newViewer 0) aPersonKnowsB 1000)) = 1%nat /\
  isDuplicate (addNewState (newViewer 0) aPersonKnowsB 1000)
              (triplesToGraph On aPersonKnowsB) = false /\
  length (states (addNewState (addNewState (newViewer 0) aPersonKnowsB 1000)
                              aPersonKnowsB 3000)) = 2%nat.
Proof. repeat split; vm_compute; reflexivity. Qed.

(** ** The playhead stays on the tick axis *)

Lemma updateLiveStatus_index v :
  currentStateIndex (updateLiveStatus v) = currentStateIndex v.
Proof. reflexivity. Qed.

Lemma seekToTime_length v t : length (states (seekToTime v t)) = length (states v).
Proof.
  unfold seekToTime. destruct (states v) eqn:H; [rewrite H; reflexivity|].
  rewrite renderState_length. simpl. rewrite H. reflexivity.
Qed.

Lemma seekToTick_length v tick : length (states (seekToTick v tick)) = length (states v).
Proof. unfold seekToTick. rewrite renderState_length. reflexivity. Qed.

Lemma goToLive_length v : length (states (goToLive v)) = length (states v).
Proof.
  unfold goToLive. destruct (0 <? _); [|reflexivity].
  cbn [updateLiveStatus states]. rewrite renderState_length. reflexivity.
Qed.

Lemma goToLive_index v :
  states v <> [] -> currentStateIndex (goToLive v) = maxTick v.
Proof.
  intros Hne. unfold goToLive, maxTick.
  destruct (Z.ltb_spec 0 (Z.of_nat (length (states v)))) as [_|Hle].
  - rewrite updateLiveStatus_index, renderState_index. reflexivity.
  - destruct (states v); [congruence | simpl in Hle; lia].
Qed.

Lemma timelineClick_frame v :
  states (timelineClick v) = states v /\
  currentStateIndex (timelineClick v) = currentStateIndex v.
Proof. unfold timelineClick. destruct (isLive v); split; reflexivity. Qed.

Lemma addNewState_index_cases v triples now :
  (length (states (addNewState v triples now)) = length (states v) /\
   currentStateIndex (addNewState v triples now) = currentStateIndex v) \/
  (length (states (addNewState v triples now)) = S (length (states v)) /\
   (currentStateIndex (addNewState v triples now) = currentStateIndex v \/
    currentStateIndex (addNewState v triples now) = Z.of_nat (length (states v)))).
Proof.
  destruct (isDuplicate v (triplesToGraph (typeDisplay v) triples)) eqn:Hd.
  - left. rewrite addNewState_duplicate by exact Hd. split; reflexivity.
  - right. split; [apply addNewState_length; exact Hd|].
    destruct (mode_cases v) as [Hm|Hm].
    + right. destruct (addNewState_live v triples now Hd Hm) as [-> _].
      unfold maxTick. rewrite (addNewState_length v triples now Hd). lia.
    + left. apply (addNewState_paused v triples now Hm).
Qed.

Lemma seekToTime_inBounds v t : states v <> [] -> inBounds (seekToTime v t).
Proof.
  intros Hne. unfold inBounds. rewrite seekToTime_length.
  destruct (states v) as [|s0 rest] eqn:Hst; [congruence|].
  rewrite (seekToTime_index v t s0 rest Hst), <- Hst.
  pose proof (closestIndexTo_firstNearest t s0 rest) as [Hr _].
  rewrite Hst. exact Hr.
Qed.

Lemma step_playheadInv v op :
  playheadInv v -> tickInRange v op -> playheadInv (step v op).
Proof.
  unfold playheadInv, maxTick. intros Hinv Hop. destruct op as [t|tick| | |triples now]; simpl.
  - destruct (states v) as [|s0 rest] eqn:Hst.
    + unfold seekToTime. rewrite !Hst. exact Hinv.
    + assert (Hne : states v <> []) by congruence.
      pose proof (seekToTime_inBounds v t Hne) as Hb. unfold inBounds in Hb. lia.
  - rewrite seekToTick_index, seekToTick_length. simpl in Hop. unfold maxTick in Hop. lia.
  - rewrite goToLive_length. destruct (states v) as [|s0 rest] eqn:Hst.
    + unfold goToLive. rewrite !Hst. simpl. exact Hinv.
    + rewrite goToLive_index by congruence. unfold maxTick. rewrite Hst. simpl. lia.
  - destruct (timelineClick_frame v) as [-> ->]. exact Hinv.
  - destruct (addNewState_index_cases v triples now) as [[-> ->] | [-> [-> | ->]]]; lia.
Qed.

Lemma reachable_playheadInv v : reachable v -> playheadInv v.
Proof.
  induction 1 as [now | v op _ IH Hop].
  - unfold playheadInv, maxTick. simpl. lia.
  - apply step_playheadInv; assumption.
Qed.

Lemma step_length v op : (length (states v) <= length (states (step v op)))%nat.
Proof.
  destruct op as [t|tick| | |triples now]; simpl.
  - rewrite seekToTime_length. lia.
  - rewrite seekToTick_length. lia.
  - rewrite goToLive_length. lia.
  - destruct (timelineClick_frame v) as [-> _]. lia.
  - destruct (addNewState_index_cases v triples now) as [[-> _] | [-> _]]; lia.
Qed.

(** C5 (as amended): in every state reached from a new viewer by
    [seekToTime], [goToLive], a click on the timeline, [addNewState], and
    [seekToTick] with a tick in [[0, maxTick]], a non-empty history has
    [0 <= index < |History|]; and each of these operations, applied to a
    non-empty history whose index is in bounds, leaves the index in bounds. *)
Theorem playhead_in_bounds :
  (forall v, reachable v -> states v <> [] -> inBounds v) /\
  (forall v op, states v <> [] -> inBounds v -> tickInRange v op ->
     states (step v op) <> [] /\ inBounds (step v op)).
Proof.
  split.
  - intros v Hr Hne. apply reachable_playheadInv in Hr.
    unfold playheadInv, maxTick in Hr. unfold inBounds.
    destruct (states v); [congruence | simpl in *; lia].
  - intros v op Hne Hb Hop.
    assert (Hinv : playheadInv v) by (unfold playheadInv, inBounds, maxTick in *; lia).
    pose proof (step_playheadInv v op Hinv Hop) as Hinv'.
    pose proof (step_length v op) as Hlen.
    assert (Hpos : (0 < length (states v))%nat)
      by (destruct (states v); [congruence | simpl; lia]).
    split.
    + intros Heq. rewrite Heq in Hlen. simpl in Hlen. lia.
    + unfold playheadInv, inBounds, maxTick in *. lia.
Qed.

Lemma playhead_in_bounds_witness :
  inBounds (step (newViewer 0) (AddNewState aPersonKnowsB 1000)) /\
  inBounds (step fiveSnapshots (SeekToTick 2)).
Proof.
  split.
  - apply (proj1 playhead_in_bounds).
    + apply reachable_step; [apply reachable_new | exact I].
    + vm_compute. discriminate.
  - apply (proj2 playhead_in_bounds fiveSnapshots (SeekToTick 2)).
    + vm_compute. discriminate.
    + vm_compute. split; [discriminate | reflexivity].
    + vm_compute. split; discriminate.
Defined.

(** C5 as stated fails: [seekToTick] is one of the operations that move the
    playhead, and with five snapshots [seekToTick(999)] takes an index that
    is in bounds to one that is not. *)
Lemma seekToTick_leaves_bounds_counterexample :
  states fiveSnapshots <> [] /\ inBounds fiveSnapshots /\
  ~ inBounds (seekToTick fiveSnapshots 999).
Proof.
  split; [vm_compute; discriminate|]. split.
  - vm_compute. split; [discriminate | reflexivity].
  - intros [_ H]. vm_compute in H. discriminate H.
Qed.

(** * Further properties *)

(** ** URI shortener *)

Lemma regexMatch_Some (s g : string) :
  regexMatch s = Some g ->
  sepFree g = true /\ g <> "" /\ exists pre, s = pre +:+ g.
Proof.
  induction s as [|c s IH]; simpl; [discriminate|].
  destruct (isSep c && nonEmpty s && sepFree s) eqn:Hc.
  - intros [= <-]. apply andb_prop in Hc as [Hc Hfree].
    apply andb_prop in Hc as [_ Hne].
    split; [exact Hfree|]. split; [destruct s; [discriminate | congruence]|].
    exists (String c ""). reflexivity.
  - intros Hm. destruct (IH Hm) as (Hfree & Hne & pre & ->).
    split; [exact Hfree|]. split; [exact Hne|].
    exists (String c pre). reflexivity.
Qed.

(** X1: shortening is idempotent: a label that was shortened once is not
    changed by shortening it again. *)
Theorem shortenURI_idempotent (uri : string) :
  shortenURI (shortenURI uri) = shortenURI uri.
Proof.
  unfold shortenURI at 2 3. destruct (regexMatch uri) as [g|] eqn:Hm.
  - destruct (regexMatch_Some uri g Hm) as (Hfree & _ & _).
    unfold shortenURI. rewrite (regexMatch_sepFree g Hfree). reflexivity.
  - unfold shortenURI. rewrite Hm. reflexivity.
Qed.

(** X2: the label is always a suffix of the input, it is empty only for the
    empty input, and it is either the input itself or free of separators. *)
Theorem shortenURI_suffix (uri : string) :
  (exists pre, uri = pre +:+ shortenURI uri) /\
  (shortenURI uri = "" <-> uri = "") /\
  (shortenURI uri = uri \/ sepFree (shortenURI uri) = true).
Proof.
  unfold shortenURI. destruct (regexMatch uri) as [g|] eqn:Hm.
  - destruct (regexMatch_Some uri g Hm) as (Hfree & Hne & pre & Hpre).
    split; [exists pre; exact Hpre|]. split; [|right; exact Hfree].
    split; [intros ->; congruence|]. intros ->. discriminate Hm.
  - split; [exists ""; reflexivity|]. split; [tauto | left; reflexivity].
Qed.

(** ** Triple projector: what the result consists of *)

Lemma buildStep_has typeDisplay nodeTypes m ls triple k :
  JSMap.has k (fst (buildStep typeDisplay nodeTypes (m, ls) triple)) =
  JSMap.has k m || mentions typeDisplay k triple.
Proof.
  unfold buildStep, mentions, emitsLink.
  destruct (String.eqb _ "type"); [destruct typeDisplay|
    destruct (N3.isNamedNode (N3.object triple))];
    cbn [fst]; rewrite ?has_setIfAbsent;
    destruct (JSMap.has k m), (String.eqb (shortenURI (N3.value (N3.subject triple))) k),
             (String.eqb (shortenURI (N3.value (N3.object triple))) k); reflexivity.
Qed.

Lemma buildStep_links typeDisplay nodeTypes m ls triple :
  snd (buildStep typeDisplay nodeTypes (m, ls) triple) = ls ++ linkOf typeDisplay triple.
Proof.
  unfold buildStep, linkOf, emitsLink.
  destruct (String.eqb _ "type"); [destruct typeDisplay|
    destruct (N3.isNamedNode (N3.object triple))];
    cbn [snd]; rewrite ?app_nil_r; reflexivity.
Qed.

Lemma fold_buildStep typeDisplay nodeTypes triples m ls :
  (forall k, JSMap.has k (fst (fold_left (buildStep typeDisplay nodeTypes) triples (m, ls))) =
             JSMap.has k m || existsb (mentions typeDisplay k) triples) /\
  snd (fold_left (buildStep typeDisplay nodeTypes) triples (m, ls)) =
    ls ++ flat_map (linkOf typeDisplay) triples.
Proof.
  revert m ls. induction triples as [|t triples IH]; intros m ls; cbn [fold_left].
  - split; [intros k; rewrite orb_false_r | rewrite app_nil_r]; reflexivity.
  - pose proof (buildStep_has typeDisplay nodeTypes m ls t) as Hh.
    pose proof (buildStep_links typeDisplay nodeTypes m ls t) as Hl.
    destruct (buildStep typeDisplay nodeTypes (m, ls) t) as [m' ls'].
    cbn [fst snd] in Hh, Hl. destruct (IH m' ls') as [IHh IHl]. split.
    + intros k. rewrite IHh, Hh. cbn [existsb]. rewrite orb_assoc. reflexivity.
    + rewrite IHl, Hl. cbn [flat_map]. rewrite app_assoc. reflexivity.
Qed.

Lemma fold_buildInv typeDisplay nodeTypes triples :
  buildInv (fold_left (buildStep typeDisplay nodeTypes) triples ([], [])).
Proof.
  apply fold_left_invariant.
  - split; cbn [fst snd]; [intros kv Hkv | intros l Hl]; inversion Hkv || inversion Hl.
  - intros a' x Ha' _. apply buildStep_inv. exact Ha'.
Qed.

Lemma has_iff_id (m : list (string * Node.t)) (k : string) :
  keyed m -> (JSMap.has k m = true <-> k ∈ map Node.id (JSMap.values m)).
Proof.
  intros Hk. split; [apply has_values_id; exact Hk|].
  intros Hin. unfold JSMap.values in Hin. rewrite map_map in Hin.
  apply list_elem_of_fmap in Hin as ([k' n] & -> & Hkv).
  rewrite (Hk _ Hkv). cbn [fst snd]. unfold JSMap.has. apply existsb_exists.
  exists (k', n). split; [apply list_elem_of_In; exact Hkv | apply String.eqb_refl].
Qed.

Lemma projection_links (typeDisplay : TypeDisplay) (triples : list N3.Triple) :
  links (triplesToGraph typeDisplay triples) = flat_map (linkOf typeDisplay) triples.
Proof.
  unfold triplesToGraph.
  set (nodeTypes := fold_left typeIndexStep triples ∅).
  destruct (fold_buildStep typeDisplay nodeTypes triples [] []) as [_ Hl].
  destruct (fold_left (buildStep typeDisplay nodeTypes) triples ([], [])) as [m ls].
  exact Hl.
Qed.

(** X3: the links of a projection are exactly the links of the statements
    that emit one, in statement order; repeated statements give repeated
    links, and nothing else adds or removes a link. *)
Theorem links_follow_statements (typeDisplay : TypeDisplay) (triples : list N3.Triple) :
  links (triplesToGraph typeDisplay triples) = flat_map (linkOf typeDisplay) triples.
Proof. apply projection_links. Qed.

Lemma id_in_projection_iff (typeDisplay : TypeDisplay) (triples : list N3.Triple) (k : string) :
  k ∈ map Node.id (nodes (triplesToGraph typeDisplay triples)) <->
  exists t, t ∈ triples /\ mentions typeDisplay k t = true.
Proof.
  unfold triplesToGraph.
  set (nodeTypes := fold_left typeIndexStep triples ∅).
  destruct (fold_buildStep typeDisplay nodeTypes triples [] []) as [Hh _].
  pose proof (fold_buildInv typeDisplay nodeTypes triples) as [Hk _].
  destruct (fold_left (buildStep typeDisplay nodeTypes) triples ([], [])) as [m ls].
  cbn [fst snd nodes] in *. rewrite <- (has_iff_id m k Hk), Hh. cbn [JSMap.has existsb orb].
  rewrite existsb_exists. split; intros (t & Ht & Hm); exists t;
    (split; [apply list_elem_of_In; exact Ht | exact Hm]).
Qed.

(** X4: a label is the id of a node of the projection exactly when it is the
    shortened subject of some statement, or the shortened object of a
    statement that emits a link. *)
Theorem node_ids_are_mentions (typeDisplay : TypeDisplay) (triples : list N3.Triple) (k : string) :
  k ∈ map Node.id (nodes (triplesToGraph typeDisplay triples)) <->
  exists t, t ∈ triples /\ mentions typeDisplay k t = true.
Proof. apply id_in_projection_iff. Qed.

(** X5: a projection has no node exactly when there is no statement. *)
Theorem no_nodes_iff_no_statements (typeDisplay : TypeDisplay) (triples : list N3.Triple) :
  nodes (triplesToGraph typeDisplay triples) = [] <-> triples = [].
Proof.
  split; [|intros ->; reflexivity].
  intros Hn. destruct triples as [|t triples]; [reflexivity|]. exfalso.
  assert (Hin : shortenURI (N3.value (N3.subject t))
                  ∈ map Node.id (nodes (triplesToGraph typeDisplay (t :: triples)))).
  { apply id_in_projection_iff. exists t. split; [left|].
    unfold mentions. rewrite String.eqb_refl. reflexivity. }
  rewrite Hn in Hin. inversion Hin.
Qed.

Lemma has_false_iff {V : Type} (k : string) (m : list (string * V)) :
  JSMap.has k m = false <-> k ∉ map fst m.
Proof.
  unfold JSMap.has. induction m as [|[k' v] m IH]; cbn [existsb map fst].
  - split; [intros _ H; inversion H | reflexivity].
  - rewrite orb_false_iff, IH, not_elem_of_cons, String.eqb_neq.
    split; intros [H1 H2]; split; auto.
Qed.

Lemma keys_setIfAbsent_NoDup (k : string) (n : Node.t) (m : list (string * Node.t)) :
  NoDup (map fst m) -> NoDup (map fst (setIfAbsent k n m)).
Proof.
  intros Hm. rewrite setIfAbsent_unfold. destruct (JSMap.has k m) eqn:Hk; [exact Hm|].
  rewrite map_app. cbn [map fst]. apply NoDup_app. split; [exact Hm|].
  split; [|apply NoDup_singleton].
  intros x Hx Hx'. apply list_elem_of_singleton in Hx' as ->.
  apply has_false_iff in Hk. contradiction.
Qed.

Lemma buildStep_keys_NoDup typeDisplay nodeTypes acc triple :
  NoDup (map fst (fst acc)) ->
  NoDup (map fst (fst (buildStep typeDisplay nodeTypes acc triple))).
Proof.
  destruct acc as [m ls]. unfold buildStep. intros Hm.
  destruct (String.eqb _ "type"); [destruct typeDisplay|
    destruct (N3.isNamedNode (N3.object triple))];
    cbn [fst]; repeat apply keys_setIfAbsent_NoDup; exact Hm.
Qed.

Lemma keyed_ids (m : list (string * Node.t)) :
  keyed m -> map Node.id (JSMap.values m) = map fst m.
Proof.
  intros Hk. unfold JSMap.values. rewrite map_map.
  apply map_ext_in. intros kv Hkv. apply Hk, list_elem_of_In, Hkv.
Qed.

(** X6: node ids are unique within a projection. *)
Theorem node_ids_unique (typeDisplay : TypeDisplay) (triples : list N3.Triple) :
  NoDup (map Node.id (nodes (triplesToGraph typeDisplay triples))).
Proof.
  unfold triplesToGraph.
  set (nodeTypes := fold_left typeIndexStep triples ∅).
  pose proof (fold_buildInv typeDisplay nodeTypes triples) as [Hk _].
  pose proof (fold_left_invariant (fun acc => NoDup (map fst (fst acc)))
                (buildStep typeDisplay nodeTypes) triples ([], [])) as Hn.
  destruct (fold_left (buildStep typeDisplay nodeTypes) triples ([], [])) as [m ls].
  cbn [fst nodes] in *. rewrite (keyed_ids m Hk). apply Hn.
  - apply NoDup_nil_2.
  - intros a' x Ha' _. apply buildStep_keys_NoDup. exact Ha'.
Qed.

Lemma buildStep_shaped typeDisplay nodeTypes acc triple :
  shaped typeDisplay nodeTypes (fst acc) ->
  shaped typeDisplay nodeTypes (fst (buildStep typeDisplay nodeTypes acc triple)).
Proof.
  destruct acc as [m ls]. unfold buildStep, shaped. intros Hm.
  destruct (String.eqb _ "type"); [destruct typeDisplay|
    destruct (N3.isNamedNode (N3.object triple))];
    cbn [fst]; intros kv Hkv;
    repeat (apply elem_of_setIfAbsent in Hkv as [Hkv | ->]);
    auto.
Qed.

(** X7: every node of a projection has its id as label and no layout index;
    under [On] its types are the shortened objects of the [type] statements
    about it, in statement order and with repetitions, and under the other
    policies it has no types; only under [Nodes] is a node a type node. *)
Theorem node_fields (typeDisplay : TypeDisplay) (triples : list N3.Triple) (n : Node.t) :
  n ∈ nodes (triplesToGraph typeDisplay triples) ->
  Node.label n = Node.id n /\
  Node.index n = None /\
  Node.types n = match typeDisplay with
                 | On => typeObjects (Node.id n) triples
                 | _ => []
                 end /\
  (Node.isType n = true -> typeDisplay = Nodes).
Proof.
  unfold triplesToGraph.
  pose proof (typeIndex_lookup triples ∅) as Hty.
  set (nodeTypes := fold_left typeIndexStep triples ∅) in *.
  pose proof (fold_left_invariant (fun acc => shaped typeDisplay nodeTypes (fst acc))
                (buildStep typeDisplay nodeTypes) triples ([], [])) as Hs.
  destruct (fold_left (buildStep typeDisplay nodeTypes) triples ([], [])) as [m ls].
  cbn [fst nodes] in *. intros Hn. unfold JSMap.values in Hn.
  apply list_elem_of_fmap in Hn as ([k n'] & -> & Hkv). cbn [snd].
  destruct (Hs) with (kv := (k, n')) as [Hp | [Htd Hp]]; cbn [fst snd] in *.
  - intros kv' Hkv'. inversion Hkv'.
  - intros a' x Ha' _. apply buildStep_shaped. exact Ha'.
  - exact Hkv.
  - subst n'. unfold plainNode. cbn. repeat split; try discriminate.
    unfold typesFor. destruct typeDisplay; try reflexivity.
    rewrite Hty, lookup_empty. reflexivity.
  - subst n' typeDisplay. unfold typeNode. cbn. repeat split.
Qed.

Lemma node_fields_witness :
  Node.label (Node.mk "a" "a" ["Person"] false None) = "a" /\
  Node.index (Node.mk "a" "a" ["Person"] false None) = None /\
  Node.types (Node.mk "a" "a" ["Person"] false None) = typeObjects "a" aPersonKnowsB /\
  (Node.isType (Node.mk "a" "a" ["Person"] false None) = true -> On = Nodes).
Proof.
  apply (node_fields On aPersonKnowsB (Node.mk "a" "a" ["Person"] false None)).
  vm_compute. left.
Defined.

(** ** The history is append-only *)

Lemma map_imap_same {A B : Type} (h : A -> B) (g : nat -> A -> A) (l : list A) :
  (forall i x, h (g i x) = h x) -> map h (imap g l) = map h l.
Proof.
  revert g. induction l as [|x l IH]; intros g Hg; [reflexivity|].
  rewrite imap_cons. cbn [map]. rewrite Hg, IH; [reflexivity|].
  intros i y. apply Hg.
Qed.

Lemma map_alter_same {A B : Type} (h : A -> B) (g : A -> A) (i : nat) (l : list A) :
  (forall x, h (g x) = h x) -> map h (alter g i l) = map h l.
Proof.
  intros Hg. revert i. induction l as [|x l IH]; intros [|i]; cbn; try reflexivity.
  - rewrite Hg. reflexivity.
  - f_equal. apply IH.
Qed.

Lemma findNode_id (ns : list Node.t) (k : string) (n : Node.t) :
  findNode ns k = Some n -> Node.id n = k.
Proof.
  unfold findNode.
  apply (fold_left_invariant (fun acc => acc = Some n -> Node.id n = k)).
  - discriminate.
  - intros acc x Hacc _. destruct (String.eqb_spec (Node.id x) k) as [Hx|_]; [|exact Hacc].
    intros [= ->]. exact Hx.
Qed.

Lemma eraseEndpoint_resolve (ns : list Node.t) (e : Endpoint) :
  eraseEndpoint (resolveEndpoint ns e) = eraseEndpoint e.
Proof.
  destruct e as [k|n]; [|reflexivity]. cbn.
  destruct (findNode ns k) as [n|] eqn:Hf; [|reflexivity].
  cbn. rewrite (findNode_id ns k n Hf). reflexivity.
Qed.

Lemma eraseLayout_simulate (g : GraphData) : eraseLayout (simulate g) = eraseLayout g.
Proof.
  unfold eraseLayout, simulate, initializeNodes, initializeLinks. cbn [nodes links]. f_equal.
  - apply map_imap_same. reflexivity.
  - apply map_imap_same. intros i l. unfold eraseLink. cbn.
    rewrite !eraseEndpoint_resolve. reflexivity.
Qed.

Lemma eraseLayout_projection (typeDisplay : TypeDisplay) (triples : list N3.Triple) :
  eraseLayout (triplesToGraph typeDisplay triples) = triplesToGraph typeDisplay triples.
Proof.
  pose proof (projection_fresh typeDisplay triples) as Hn.
  pose proof (projection_links typeDisplay triples) as Hl.
  destruct (triplesToGraph typeDisplay triples) as [ns ls].
  unfold eraseLayout. cbn [nodes links] in *. f_equal.
  - clear Hl. induction ns as [|n ns IH]; [reflexivity|]. cbn [map]. f_equal.
    + specialize (Hn n (list_elem_of_here _ _)). destruct n. cbn in *. subst. reflexivity.
    + apply IH. intros n' Hn'. apply Hn. right. exact Hn'.
  - subst ls. induction triples as [|t triples IH]; [reflexivity|].
    cbn [flat_map]. rewrite map_app, IH. f_equal.
    unfold linkOf. destruct (emitsLink typeDisplay t); reflexivity.
Qed.

Lemma renderState_content v i a :
  map content (states (renderState v i a)) = map content (states v).
Proof.
  unfold renderState. repeat case_match; cbn [states]; try reflexivity.
  apply map_alter_same. intros s. unfold content, simulateSnapshot. cbn [data timestamp].
  rewrite eraseLayout_simulate. reflexivity.
Qed.

Lemma addNewState_content v triples now :
  map content (states (addNewState v triples now)) =
  map content (states v) ++
    (if isDuplicate v (triplesToGraph (typeDisplay v) triples) then []
     else [(triplesToGraph (typeDisplay v) triples,
            (inject_Z (now - startTime v) / 1000)%Q)]).
Proof.
  unfold addNewState. destruct (isDuplicate v _); [rewrite app_nil_r; reflexivity|].
  cbn [isLive isPaused].
  destruct (isLive v && negb (isPaused v)); [rewrite renderState_content|];
    cbn [states setCurrentStateIndex]; rewrite map_app; cbn [map]; unfold content at 2;
    cbn [data timestamp]; rewrite eraseLayout_projection; reflexivity.
Qed.

Lemma step_content v op :
  map content (states (step v op)) =
  map content (states v) ++
    match op with
    | AddNewState triples now =>
        if isDuplicate v (triplesToGraph (typeDisplay v) triples) then []
        else [(triplesToGraph (typeDisplay v) triples,
               (inject_Z (now - startTime v) / 1000)%Q)]
    | _ => []
    end.
Proof.
  destruct op as [t|tick| | |triples now]; cbn [step];
    [ | | | |apply addNewState_content]; rewrite app_nil_r.
  - unfold seekToTime. destruct (states v) eqn:Hst; [rewrite Hst; reflexivity|].
    rewrite renderState_content. cbn [states updateLiveStatus setCurrentStateIndex].
    rewrite Hst. reflexivity.
  - unfold seekToTick. rewrite renderState_content. reflexivity.
  - unfold goToLive. destruct (0 <? _); [|reflexivity].
    cbn [states updateLiveStatus]. rewrite renderState_content. reflexivity.
  - destruct (timelineClick_frame v) as [-> _]. reflexivity.
Qed.

(** X8: no operation of the controller removes, reorders or rewrites a
    snapshot: apart from what the simulation writes into rendered
    snapshots, the history after an operation is the history before it,
    followed, only for [addNewState] of a graph that is not a duplicate, by
    the projection of the delivered statements with the new timestamp. *)
Theorem history_is_append_only (v : Viewer) (op : Op) :
  map content (states (step v op)) =
  map content (states v) ++
    match op with
    | AddNewState triples now =>
        if isDuplicate v (triplesToGraph (typeDisplay v) triples) then []
        else [(triplesToGraph (typeDisplay v) triples,
               (inject_Z (now - startTime v) / 1000)%Q)]
    | _ => []
    end.
Proof. apply step_content. Qed.

(** ** Timestamps *)

Lemma increasing_snoc (l : list Q) (y : Q) :
  increasing l -> Forall (fun x => (x < y)%Q) l -> increasing (l ++ [y]).
Proof.
  induction l as [|x l IH]; cbn [increasing app].
  - intros _ _. split; [constructor | exact I].
  - intros [Hx Hl] Hy. apply Forall_cons in Hy as [Hxy Hy]. split; [|apply IH; assumption].
    apply Forall_app. split; [exact Hx | constructor; [exact Hxy | constructor]].
Qed.

Lemma step_timestamps v op :
  map timestamp (states (step v op)) =
  map timestamp (states v) ++
    match op with
    | AddNewState triples now =>
        if isDuplicate v (triplesToGraph (typeDisplay v) triples) then []
        else [(inject_Z (now - startTime v) / 1000)%Q]
    | _ => []
    end.
Proof.
  assert (Hts : forall l, map timestamp l = map snd (map content l))
    by (intros l; rewrite map_map; reflexivity).
  rewrite !Hts, step_content, map_app. f_equal.
  destruct op as [| | | |triples now]; try reflexivity.
  destruct (isDuplicate v _); reflexivity.
Qed.

(** X9: timestamps stay strictly increasing: if they are increasing before
    an operation, and a snapshot is only added at a clock reading later than
    those of all stored snapshots, they are increasing after it. *)
Theorem timestamps_stay_increasing (v : Viewer) (op : Op) :
  increasing (map timestamp (states v)) ->
  (forall triples now, op = AddNewState triples now ->
     Forall (fun s => (timestamp s < inject_Z (now - startTime v) / 1000)%Q) (states v)) ->
  increasing (map timestamp (states (step v op))).
Proof.
  intros Hinc Hclock. rewrite step_timestamps.
  destruct op as [| | | |triples now]; rewrite ?app_nil_r; try exact Hinc.
  destruct (isDuplicate v _); [rewrite app_nil_r; exact Hinc|].
  apply increasing_snoc; [exact Hinc|].
  apply Forall_fmap. exact (Hclock triples now eq_refl).
Qed.

Lemma timestamps_stay_increasing_witness :
  increasing (map timestamp (states (step twoSnapshots (AddNewState ring 5000)))).
Proof.
  apply (timestamps_stay_increasing twoSnapshots (AddNewState ring 5000)).
  - vm_compute. repeat constructor.
  - intros triples now [= <- <-]. vm_compute. repeat constructor.
Defined.

(** ** Modes *)

Lemma timelineClick_mode v : mode (timelineClick v) = Paused.
Proof.
  unfold timelineClick, mode. destruct (isLive v) eqn:Hl; [|rewrite Hl; reflexivity].
  cbn. rewrite andb_false_r. reflexivity.
Qed.

Lemma addNewState_mode v triples now : mode (addNewState v triples now) = mode v.
Proof.
  unfold addNewState. destruct (isDuplicate v _); [reflexivity|].
  cbn [isLive isPaused]. destruct (isLive v && negb (isPaused v)) eqn:Hl.
  - rewrite renderState_mode. reflexivity.
  - reflexivity.
Qed.

Lemma live_at_latest_step v op :
  (mode v = Live -> states v <> [] -> currentStateIndex v = maxTick v) ->
  mode (step v op) = Live -> states (step v op) <> [] ->
  currentStateIndex (step v op) = maxTick (step v op).
Proof.
  intros IH Hm Hne. destruct op as [t|tick| | |triples now]; cbn [step] in *.
  - destruct (states v) as [|s0 rest] eqn:Hst.
    + unfold seekToTime in *. rewrite Hst in *. apply IH; [exact Hm | congruence].
    + rewrite (seekToTime_mode v t s0 rest Hst) in Hm.
      rewrite (seekToTime_index v t s0 rest Hst).
      unfold maxTick at 1. rewrite seekToTime_length. fold (maxTick v).
      destruct (Z.eqb_spec (closestIndexTo t s0 rest) (maxTick v)); [assumption|discriminate].
  - rewrite seekToTick_mode in Hm. rewrite seekToTick_index.
    unfold maxTick at 1. rewrite seekToTick_length. fold (maxTick v).
    destruct (Z.eqb_spec tick (maxTick v)); [assumption|discriminate].
  - unfold maxTick. rewrite goToLive_length. fold (maxTick v).
    apply goToLive_index. intros Hv. apply Hne.
    unfold goToLive. rewrite Hv. cbn. exact Hv.
  - rewrite timelineClick_mode in Hm. discriminate.
  - rewrite addNewState_mode in Hm.
    destruct (isDuplicate v (triplesToGraph (typeDisplay v) triples)) eqn:Hd.
    + rewrite addNewState_duplicate in * by exact Hd. auto.
    + apply (addNewState_live v triples now Hd Hm).
Qed.

(** X10: in every reachable state, a controller in [Live] mode with a
    non-empty history has its playhead on the newest snapshot. *)
Theorem live_playhead_is_newest (v : Viewer) :
  reachable v -> mode v = Live -> states v <> [] ->
  currentStateIndex v = maxTick v.
Proof.
  induction 1 as [now | v op _ IH _].
  - intros _ Hne. contradiction.
  - apply live_at_latest_step. exact IH.
Qed.

Lemma live_playhead_is_newest_witness :
  currentStateIndex (step (step (newViewer 0) (AddNewState aPersonKnowsB 1000))
                          (AddNewState ring 2000)) =
  maxTick (step (step (newViewer 0) (AddNewState aPersonKnowsB 1000))
                (AddNewState ring 2000)).
Proof.
  apply live_playhead_is_newest.
  - apply reachable_step; [apply reachable_step; [apply reachable_new | exact I] | exact I].
  - vm_compute. reflexivity.
  - vm_compute. discriminate.
Defined.

Lemma step_stays_paused v op :
  isPaused v = true -> op <> GoToLive -> isPaused (step v op) = true.
Proof.
  intros Hp Hop. destruct op as [t|tick| | |triples now]; cbn [step]; [| |congruence| |].
  - unfold seekToTime. destruct (states v); [exact Hp|].
    match goal with |- context [renderState ?w ?i ?a] =>
      destruct (renderState_flags w i a) as [_ ->] end.
    cbn. rewrite Hp, andb_false_r. reflexivity.
  - unfold seekToTick.
    match goal with |- context [renderState ?w ?i ?a] =>
      destruct (renderState_flags w i a) as [_ ->] end.
    cbn. rewrite Hp, andb_false_r. reflexivity.
  - unfold timelineClick. destruct (isLive v); [|exact Hp].
    cbn. rewrite andb_false_r. reflexivity.
  - unfold addNewState. destruct (isDuplicate v _); [exact Hp|].
    cbn [isLive isPaused]. rewrite Hp, andb_false_r. reflexivity.
Qed.

(** X11: from a reachable state in [Paused] mode, no sequence of seeks,
    timeline clicks and appended snapshots returns the controller to [Live]
    mode; only [goToLive] does. *)
Theorem paused_until_goToLive (v : Viewer) (ops : list Op) :
  reachable v -> mode v = Paused ->
  Forall (fun op => op <> GoToLive) ops ->
  mode (fold_left step ops v) = Paused.
Proof.
  intros Hr Hm Hops.
  assert (Hp : isPaused v = true).
  { pose proof (reachable_consistent v Hr) as Hc. unfold mode in Hm.
    rewrite Hc in *. destruct (isLive v); [discriminate | reflexivity]. }
  clear Hr Hm.
  assert (Hp' : isPaused (fold_left step ops v) = true).
  { revert v Hp. induction Hops as [|op ops Hop _ IH]; intros v Hp; [exact Hp|].
    cbn [fold_left]. apply IH. apply step_stays_paused; assumption. }
  unfold mode. rewrite Hp', andb_false_r. reflexivity.
Qed.

Lemma feed_reachable (v : Viewer) (polls : list (list N3.Triple * Z)) :
  reachable v -> reachable (feed v polls).
Proof.
  unfold feed. revert v. induction polls as [|[triples now] polls IH]; intros v Hv; [exact Hv|].
  cbn [fold_left fst snd]. apply IH.
  exact (reachable_step v (AddNewState triples now) Hv I).
Qed.

Lemma paused_until_goToLive_witness :
  mode (fold_left step [SeekToTick 4; AddNewState aPersonKnowsB 6000; SeekToTime 9%Q]
                  (step fiveSnapshots TimelineClick)) = Paused.
Proof.
  apply paused_until_goToLive.
  - apply reachable_step; [|exact I].
    apply feed_reachable, reachable_new.
  - vm_compute. reflexivity.
  - repeat constructor; discriminate.
Defined.

(** X12: on a non-empty history [goToLive] puts the controller in [Live]
    mode with the playhead on the newest snapshot, whatever the mode and
    index were, and requests one render of that snapshot without animation;
    on an empty history it does nothing. *)
Theorem goToLive_resumes (v : Viewer) :
  (states v <> [] ->
     mode (goToLive v) = Live /\
     currentStateIndex (goToLive v) = maxTick (goToLive v) /\
     renderCalls (goToLive v) = renderCalls v ++ [(maxTick v, false)]) /\
  (states v = [] -> goToLive v = v).
Proof.
  split.
  - intros Hne. pose proof (goToLive_index v Hne) as Hi.
    assert (Hlen : maxTick (goToLive v) = maxTick v)
      by (unfold maxTick; rewrite goToLive_length; reflexivity).
    assert (Hpos : (0 <? Z.of_nat (length (states v))) = true)
      by (apply Z.ltb_lt; destruct (states v); [congruence | cbn [length]; lia]).
    split; [|split; [congruence|]].
    + unfold goToLive in *. rewrite Hpos in *.
      rewrite updateLiveStatus_mode.
      rewrite updateLiveStatus_index in Hi. rewrite Hi.
      rewrite renderState_maxTick. unfold maxTick at 1. cbn [states].
      fold (maxTick v). rewrite Z.eqb_refl.
      match goal with |- context [isPaused (renderState ?w ?i ?a)] =>
        destruct (renderState_flags w i a) as [_ ->] end.
      reflexivity.
    + unfold goToLive. rewrite Hpos.
      cbn [updateLiveStatus renderCalls]. rewrite renderState_calls. reflexivity.
  - intros He. unfold goToLive. rewrite He. reflexivity.
Qed.

Lemma goToLive_resumes_witness :
  mode (goToLive (timelineClick fiveSnapshots)) = Live /\
  currentStateIndex (goToLive (timelineClick fiveSnapshots)) =
    maxTick (goToLive (timelineClick fiveSnapshots)) /\
  renderCalls (goToLive (timelineClick fiveSnapshots)) =
    renderCalls (timelineClick fiveSnapshots) ++ [(maxTick (timelineClick fiveSnapshots), false)].
Proof.
  apply (proj1 (goToLive_resumes (timelineClick fiveSnapshots))).
  vm_compute. discriminate.
Defined.

(** ** Rendering *)

Lemma renderState_cases v i a :
  (states (renderState v i a) = states v /\
   lastRenderedIndex (renderState v i a) = lastRenderedIndex v /\
   (~ (0 <= i < Z.of_nat (length (states v))) \/ i = lastRenderedIndex v)) \/
  (states (renderState v i a) = alter simulateSnapshot (Z.to_nat i) (states v) /\
   lastRenderedIndex (renderState v i a) = i /\
   0 <= i < Z.of_nat (length (states v)) /\ i <> lastRenderedIndex v).
Proof.
  unfold renderState.
  destruct (Z.ltb_spec i 0); [left; cbn; repeat split; left; lia|].
  destruct (Z.geb_spec i (Z.of_nat (length (states v)))); [left; cbn; repeat split; left; lia|].
  destruct (Z.eqb_spec i (lastRenderedIndex v)); [left; cbn; repeat split; right; assumption|].
  right. cbn. repeat split; auto; lia.
Qed.

(** X13: [renderState] hands at most the snapshot at [index] to the
    simulation and leaves all others as they are; with an index outside the
    history it changes neither the history nor the record of the last
    rendered index; and asking again for the index just rendered changes
    nothing further. *)
Theorem renderState_guards (v : Viewer) (index : Z) (animate : bool) :
  (forall j, Z.of_nat j <> index ->
     states (renderState v index animate) !! j = states v !! j) /\
  (~ (0 <= index < Z.of_nat (length (states v))) ->
     states (renderState v index animate) = states v /\
     lastRenderedIndex (renderState v index animate) = lastRenderedIndex v) /\
  (forall animate',
     states (renderState (renderState v index animate) index animate') =
       states (renderState v index animate) /\
     lastRenderedIndex (renderState (renderState v index animate) index animate') =
       lastRenderedIndex (renderState v index animate)).
Proof.
  split; [|split].
  - intros j Hj.
    destruct (renderState_cases v index animate) as [(-> & _ & _) | (-> & _ & Hr & _)];
      [reflexivity|].
    apply list_lookup_alter_ne. lia.
  - intros Hout.
    destruct (renderState_cases v index animate) as [(-> & -> & _) | (_ & _ & Hr & _)];
      [split; reflexivity | contradiction].
  - intros animate'.
    destruct (renderState_cases (renderState v index animate) index animate')
      as [(-> & -> & _) | (_ & _ & Hr & Hne)]; [split; reflexivity|].
    exfalso. rewrite renderState_length in Hr.
    destruct (renderState_cases v index animate) as [(_ & Hl & [Ho | He]) | (_ & Hl & _)];
      [contradiction | congruence | congruence].
Qed.

Lemma renderState_guards_witness :
  states (renderState fiveSnapshots 7 false) = states fiveSnapshots /\
  lastRenderedIndex (renderState fiveSnapshots 7 false) = lastRenderedIndex fiveSnapshots.
Proof.
  apply (proj1 (proj2 (renderState_guards fiveSnapshots 7 false))).
  vm_compute. intros [_ H]. discriminate H.
Defined.

(** The join keys of a graph do not change when the simulation replaces the
    ends of its links by node objects, provided no end is the empty label. *)
Lemma endpointKey_resolve (ns : list Node.t) (e : Endpoint) :
  e <> Label "" -> endpointKey (resolveEndpoint ns e) = endpointKey e.
Proof.
  destruct e as [k|n]; [|reflexivity]. intros Hk. cbn.
  destruct (findNode ns k) as [n|] eqn:Hf; [|reflexivity].
  cbn. rewrite (findNode_id ns k n Hf).
  destruct k; [congruence | reflexivity].
Qed.

Lemma linkKey_simulate (g : GraphData) :
  (forall l, l ∈ links g -> Link.source l <> Label "" /\ Link.target l <> Label "") ->
  map linkKey (links (simulate g)) = map linkKey (links g).
Proof.
  intros Hends. unfold simulate, initializeLinks. cbn [links].
  generalize (initializeNodes (nodes g)). intros ns.
  assert (Hgen : forall (f : nat -> nat) ls,
            (forall l, l ∈ ls -> Link.source l <> Label "" /\ Link.target l <> Label "") ->
            map linkKey (imap (fun i l => Link.mk (resolveEndpoint ns (Link.source l))
                                                    (resolveEndpoint ns (Link.target l))
                                                    (Link.predicate l) (Some (f i))) ls)
            = map linkKey ls).
  { intros f ls. revert f. induction ls as [|l ls IH]; intros f Hls; [reflexivity|].
    rewrite imap_cons. cbn [map]. f_equal.
    - destruct (Hls l (list_elem_of_here _ _)) as [Hs Ht].
      unfold linkKey. cbn. rewrite !endpointKey_resolve by assumption. reflexivity.
    - apply (IH (fun i => f (S i))). intros l' Hl'. apply Hls. right. exact Hl'. }
  apply (Hgen (fun i => i)). exact Hends.
Qed.

Lemma shortenURI_nonempty (uri : string) : uri <> "" -> shortenURI uri <> "".
Proof.
  intros Hne. unfold shortenURI. destruct (regexMatch uri) as [g|] eqn:Hm; [|exact Hne].
  apply (regexMatch_Some uri g Hm).
Qed.

(** X14: the keys under which [renderState] joins nodes ([d.id]) and links
    are the same before and after the simulation has written into a
    projected graph, as long as no subject and no object of the statements
    has an empty value; so a snapshot that is rendered again is joined to
    the elements it was drawn with. *)
Theorem join_keys_survive_layout (typeDisplay : TypeDisplay) (triples : list N3.Triple) :
  (forall t, t ∈ triples ->
     N3.value (N3.subject t) <> "" /\ N3.value (N3.object t) <> "") ->
  map linkKey (links (simulate (triplesToGraph typeDisplay triples))) =
    map linkKey (links (triplesToGraph typeDisplay triples)) /\
  map Node.id (nodes (simulate (triplesToGraph typeDisplay triples))) =
    map Node.id (nodes (triplesToGraph typeDisplay triples)).
Proof.
  intros Hval. split.
  - apply linkKey_simulate. rewrite projection_links. intros l Hl.
    apply list_elem_of_In, in_flat_map in Hl as (t & Ht & Hl).
    apply list_elem_of_In in Ht. destruct (Hval t Ht) as [Hs Ho].
    unfold linkOf in Hl. destruct (emitsLink typeDisplay t); [|inversion Hl].
    destruct Hl as [<- | []]. cbn.
    split; intros [= He];
      [exact (shortenURI_nonempty _ Hs He) | exact (shortenURI_nonempty _ Ho He)].
  - unfold simulate, initializeNodes. cbn [nodes]. apply map_imap_same. reflexivity.
Qed.

Lemma join_keys_survive_layout_witness :
  map linkKey (links (simulate (triplesToGraph Nodes aPersonKnowsB))) =
    map linkKey (links (triplesToGraph Nodes aPersonKnowsB)) /\
  map Node.id (nodes (simulate (triplesToGraph Nodes aPersonKnowsB))) =
    map Node.id (nodes (triplesToGraph Nodes aPersonKnowsB)).
Proof.
  apply (join_keys_survive_layout Nodes aPersonKnowsB).
  intros t Ht. unfold aPersonKnowsB in Ht.
  apply elem_of_cons in Ht as [-> | Ht]; [split; discriminate|].
  apply list_elem_of_singleton in Ht as ->. split; discriminate.
Defined.

(** ** The empty document *)

Lemma empty_graph_data (g : GraphData) :
  eraseLayout g = mkGraph [] [] -> g = mkGraph [] [].
Proof.
  destruct g as [ns ls]. unfold eraseLayout. cbn. intros [= Hn Hl].
  apply map_eq_nil in Hn, Hl. subst. reflexivity.
Qed.

(** X15: an empty statement list delivered twice in a row adds at most one
    snapshot, in live mode as well: a graph without nodes gives the
    simulation nothing to write into, so the duplicate check still
    recognises it. *)
Theorem empty_document_is_deduplicated (v : Viewer) (t1 t2 : Z) :
  addNewState (addNewState v [] t1) [] t2 = addNewState v [] t1.
Proof.
  destruct (isDuplicate v (triplesToGraph (typeDisplay v) [])) eqn:Hd.
  - rewrite !(addNewState_duplicate v [] _ Hd). reflexivity.
  - apply addNewState_duplicate.
    pose proof (addNewState_content v [] t1) as Hc. rewrite Hd in Hc.
    apply (f_equal last) in Hc. rewrite last_snoc in Hc.
    change (map content) with (fmap (M := list) content) in Hc. rewrite fmap_last in Hc.
    unfold isDuplicate. destruct (last (states (addNewState v [] t1))) as [s|]; [|discriminate Hc].
    assert (Hs : eraseLayout (data s) = mkGraph [] []).
    { change (Some (content s) =
              Some (mkGraph [] [], (inject_Z (t1 - startTime v) / 1000)%Q)) in Hc.
      unfold content in Hc. congruence. }
    clear Hc.
    assert (Htd : typeDisplay (addNewState v [] t1) = typeDisplay v).
    { unfold addNewState. rewrite Hd. cbn [isLive isPaused].
      destruct (isLive v && negb (isPaused v)); [|reflexivity].
      unfold renderState. repeat case_match; reflexivity. }
    apply bool_decide_eq_true. rewrite Htd.
    change (triplesToGraph (typeDisplay v) []) with (mkGraph [] []) in *.
    apply empty_graph_data. exact Hs.
Qed.

(** ** Polling and settings *)

Lemma addNewState_typeDisplay v triples now :
  typeDisplay (addNewState v triples now) = typeDisplay v.
Proof.
  unfold addNewState. destruct (isDuplicate v _); [reflexivity|].
  cbn [isLive isPaused]. destruct (isLive v && negb (isPaused v)); [|reflexivity].
  unfold renderState. repeat case_match; reflexivity.
Qed.

Section PollingProperties.
Variable parse : string -> option (list N3.Triple).

Lemma onPoll_seen (a : App) (rdfContent : string) (now : Z) :
  lastRdfContent (onPoll parse a (Some rdfContent) now) = Some rdfContent.
Proof.
  unfold onPoll. case_bool_decide as Hseen; [symmetry; exact Hseen | reflexivity].
Qed.

(** X16: the change detector.  A failed fetch and a text equal to the last
    one seen change nothing; a text that does not parse leaves the viewer as
    it is but becomes the last text seen; and so any response that arrives
    twice in a row has no effect the second time. *)
Theorem poll_change_detector (a : App) (response : option string) (t1 t2 : Z) :
  (response = None \/ response = lastRdfContent a -> onPoll parse a response t1 = a) /\
  (forall rdfContent, response = Some rdfContent -> parse rdfContent = None ->
     viewer (onPoll parse a response t1) = viewer a /\
     lastRdfContent (onPoll parse a response t1) = Some rdfContent) /\
  onPoll parse (onPoll parse a response t1) response t2 = onPoll parse a response t1.
Proof.
  split; [|split].
  - intros [-> | ->]; [reflexivity|]. unfold onPoll.
    destruct (lastRdfContent a); [|reflexivity].
    rewrite bool_decide_eq_true_2 by reflexivity. reflexivity.
  - intros c -> Hp. split; [|apply onPoll_seen].
    unfold onPoll, parseAndUpdateGraph. case_bool_decide; [reflexivity|].
    rewrite Hp. reflexivity.
  - destruct response as [c|]; [|reflexivity].
    unfold onPoll at 1. rewrite onPoll_seen.
    rewrite bool_decide_eq_true_2 by reflexivity. reflexivity.
Qed.

Lemma isDuplicate_cleared v g : isDuplicate (clearStates v) g = false.
Proof. reflexivity. Qed.

Lemma rebuild_content v triples now :
  map content (states (addNewState (clearStates v) triples now)) =
  [(triplesToGraph (typeDisplay v) triples, (inject_Z (now - startTime v) / 1000)%Q)].
Proof.
  rewrite addNewState_content, isDuplicate_cleared. reflexivity.
Qed.

(** X17: after the file path was changed, the first text that is fetched
    and parses is projected into a history of exactly one snapshot, also
    when it is the very text that was seen before the change. *)
Theorem path_change_restarts_history (a : App) (path rdfContent : string)
    (triples : list N3.Triple) (now : Z) :
  parse rdfContent = Some triples ->
  map content (states (viewer (onPoll parse (changeRdfFilePath a path) (Some rdfContent) now))) =
    [(triplesToGraph (typeDisplay (viewer a)) triples,
      (inject_Z (now - startTime (viewer a)) / 1000)%Q)] /\
  lastRdfContent (onPoll parse (changeRdfFilePath a path) (Some rdfContent) now) =
    Some rdfContent /\
  rdfFilePath (onPoll parse (changeRdfFilePath a path) (Some rdfContent) now) = path.
Proof.
  intros Hp. unfold onPoll, changeRdfFilePath, parseAndUpdateGraph.
  cbn [lastRdfContent viewer rdfFilePath].
  rewrite bool_decide_eq_false_2 by discriminate.
  cbn [lastRdfContent viewer rdfFilePath]. rewrite Hp.
  split; [apply rebuild_content | split; reflexivity].
Qed.

(** X18: choosing a type-display policy while a non-empty text has been
    seen discards the whole history and, if the text parses, rebuilds it as
    the single projection of that text under the new policy; if the text
    does not parse, the history stays empty.  The playhead index is not
    reset: a live controller ends on tick 0 after a rebuild, a paused one
    keeps the index it had.  When no text or an empty text has been seen,
    only the setting changes. *)
Theorem type_display_change_rebuilds (a : App) (value : TypeDisplay) (now : Z) :
  (forall rdfContent triples,
     lastRdfContent a = Some rdfContent -> rdfContent <> "" ->
     parse rdfContent = Some triples ->
     typeDisplay (viewer (changeTypeDisplay parse a value now)) = value /\
     map content (states (viewer (changeTypeDisplay parse a value now))) =
       [(triplesToGraph value triples,
         (inject_Z (now - startTime (viewer a)) / 1000)%Q)] /\
     currentStateIndex (viewer (changeTypeDisplay parse a value now)) =
       match mode (viewer a) with
       | Live => 0
       | Paused => currentStateIndex (viewer a)
       end) /\
  (forall rdfContent,
     lastRdfContent a = Some rdfContent -> rdfContent <> "" ->
     parse rdfContent = None ->
     viewer (changeTypeDisplay parse a value now) =
       clearStates (setTypeDisplay (viewer a) value) /\
     states (viewer (changeTypeDisplay parse a value now)) = []) /\
  (lastRdfContent a = None \/ lastRdfContent a = Some "" ->
     viewer (changeTypeDisplay parse a value now) = setTypeDisplay (viewer a) value).
Proof.
  split; [|split].
  - intros c triples Hc Hne Hp. unfold changeTypeDisplay, parseAndUpdateGraph.
    rewrite Hc. destruct c as [|ch c]; [congruence|]. cbn [nonEmpty viewer]. rewrite Hp.
    set (v := clearStates (setTypeDisplay (viewer a) value)).
    assert (Hd : isDuplicate v (triplesToGraph (typeDisplay v) triples) = false)
      by reflexivity.
    split; [rewrite addNewState_typeDisplay; reflexivity|].
    split; [apply (rebuild_content (setTypeDisplay (viewer a) value))|].
    assert (Hm : mode v = mode (viewer a)) by reflexivity. rewrite <- Hm.
    destruct (mode v) eqn:Hmv.
    + destruct (addNewState_live v triples now Hd Hmv) as [-> _].
      unfold maxTick. rewrite (addNewState_length v triples now Hd). reflexivity.
    + apply (addNewState_paused v triples now Hmv).
  - intros c Hc Hne Hp. unfold changeTypeDisplay, parseAndUpdateGraph.
    rewrite Hc. destruct c as [|ch c]; [congruence|]. cbn [nonEmpty viewer]. rewrite Hp.
    split; reflexivity.
  - unfold changeTypeDisplay. intros [-> | ->]; reflexivity.
Qed.
End PollingProperties.

Lemma path_change_restarts_history_witness :
  map content (states (viewer
    (onPoll sampleParse (changeRdfFilePath (newApp 0) "~/notes.ttl") (Some "ring") 2000))) =
    [(triplesToGraph On ring, (inject_Z (2000 - 0) / 1000)%Q)].
Proof.
  apply (path_change_restarts_history sampleParse (newApp 0) "~/notes.ttl" "ring" ring 2000).
  reflexivity.
Defined.

Lemma poll_change_detector_witness :
  viewer (onPoll sampleParse (newApp 0) (Some "malformed") 1000) = viewer (newApp 0) /\
  lastRdfContent (onPoll sampleParse (newApp 0) (Some "malformed") 1000) = Some "malformed".
Proof.
  apply (proj1 (proj2 (poll_change_detector sampleParse (newApp 0) (Some "malformed") 1000 2000))
           "malformed"); reflexivity.
Defined.

Lemma type_display_change_rebuilds_witness :
  typeDisplay (viewer (changeTypeDisplay sampleParse
     (onPoll sampleParse (newApp 0) (Some "ring") 1000) Nodes 2000)) = Nodes /\
  map content (states (viewer (changeTypeDisplay sampleParse
     (onPoll sampleParse (newApp 0) (Some "ring") 1000) Nodes 2000))) =
    [(triplesToGraph Nodes ring, (inject_Z (2000 - 0) / 1000)%Q)] /\
  currentStateIndex (viewer (changeTypeDisplay sampleParse
     (onPoll sampleParse (newApp 0) (Some "ring") 1000) Nodes 2000)) = 0.
Proof.
  apply (proj1 (type_display_change_rebuilds sampleParse
                  (onPoll sampleParse (newApp 0) (Some "ring") 1000) Nodes 2000)
           "ring" ring); [reflexivity | discriminate | reflexivity].
Defined.

Lemma includes_prefix (p s : string) : String.prefix p s = true -> includes p s = true.
Proof. intros H. destruct s; cbn [includes]; rewrite H; reflexivity. Qed.

Lemma prefix_one (c : ascii) (s : string) :
  String.prefix (String c "") s = true <-> exists rest, s = String c rest.
Proof.
  destruct s as [|d rest]; cbn [String.prefix].
  - split; [discriminate | intros [r Hr]; discriminate Hr].
  - destruct (Ascii.ascii_dec c d) as [->|Hne].
    + split; [intros _; exists rest; reflexivity | intros _; destruct rest; reflexivity].
    + split; [discriminate | intros [r Hr]; congruence].
Qed.

(** X19: the poll goes through the [/api/file] endpoint exactly when the
    configured path begins with [~] or with [/]; the further test that the
    path contains a [/] never decides anything. *)
Theorem file_api_iff_home_or_absolute (path : string) :
  usesFileApi path = true <->
  exists rest, path = String "~" rest \/ path = String "/" rest.
Proof.
  unfold usesFileApi, startsWith. split.
  - intros H. apply orb_prop in H as [H | H].
    + apply prefix_one in H as [rest ->]. exists rest. left. reflexivity.
    + apply andb_prop in H as [H _].
      apply prefix_one in H as [rest ->]. exists rest. right. reflexivity.
  - intros (rest & [-> | ->]); apply orb_true_intro.
    + left. apply prefix_one. exists rest. reflexivity.
    + right. assert (Hp : String.prefix "/" (String "/" rest) = true)
        by (apply prefix_one; exists rest; reflexivity).
      rewrite (includes_prefix _ _ Hp), Hp. reflexivity.
Qed.

(** ** Seeking from any index *)

(** X21: on a non-empty history [seekToTime] and [goToLive] leave the
    playhead within the history whatever index it held before, also one
    that was out of range. *)
Theorem time_seek_lands_in_bounds (v : Viewer) (timeValue : Q) :
  states v <> [] ->
  inBounds (seekToTime v timeValue) /\ inBounds (goToLive v).
Proof.
  intros Hne. split; [apply seekToTime_inBounds; exact Hne|].
  unfold inBounds. rewrite goToLive_length, (goToLive_index v Hne). unfold maxTick.
  destruct (states v); [congruence | cbn [length]; lia].
Qed.

Lemma time_seek_lands_in_bounds_witness :
  inBounds (seekToTime (seekToTick fiveSnapshots 999) 2%Q) /\
  inBounds (goToLive (seekToTick fiveSnapshots 999)).
Proof.
  apply (time_seek_lands_in_bounds (seekToTick fiveSnapshots 999) 2%Q).
  vm_compute. discriminate.
Defined.

(** ** The duplicate check while paused *)

(** X22: while the controller is paused, the same statements delivered
    twice in a row add at most one snapshot: the second delivery is dropped
    as a duplicate. *)
Theorem paused_redelivery_is_dropped (v : Viewer) (triples : list N3.Triple) (t1 t2 : Z) :
  mode v = Paused ->
  addNewState (addNewState v triples t1) triples t2 = addNewState v triples t1.
Proof. apply reappend_dropped_when_paused. Qed.

Lemma paused_redelivery_is_dropped_witness :
  addNewState (addNewState (timelineClick fiveSnapshots) aPersonKnowsB 6000)
              aPersonKnowsB 7000 =
  addNewState (timelineClick fiveSnapshots) aPersonKnowsB 6000.
Proof.
  apply (paused_redelivery_is_dropped (timelineClick fiveSnapshots) aPersonKnowsB 6000 7000).
  vm_compute. reflexivity.
Defined.

(** ** The order of node ids *)

Lemma has_keys {V : Type} (k : string) (m : list (string * V)) :
  JSMap.has k m = existsb (fun k' => String.eqb k' k) (map fst m).
Proof.
  unfold JSMap.has. induction m as [|[k' v] m IH]; [reflexivity|].
  cbn [existsb map fst]. rewrite IH. reflexivity.
Qed.

Lemma keys_setIfAbsent (k : string) (n : Node.t) (m : list (string * Node.t)) :
  map fst (setIfAbsent k n m) = addKey k (map fst m).
Proof.
  rewrite setIfAbsent_unfold. unfold addKey. rewrite <- has_keys.
  destruct (JSMap.has k m); [reflexivity|]. rewrite map_app. reflexivity.
Qed.

Lemma keys_buildStep typeDisplay nodeTypes m ls triple :
  map fst (fst (buildStep typeDisplay nodeTypes (m, ls) triple)) =
  keyStep typeDisplay (map fst m) triple.
Proof.
  unfold buildStep, keyStep, emitsLink.
  destruct (String.eqb _ "type"); [destruct typeDisplay|
    destruct (N3.isNamedNode (N3.object triple))];
    cbn [fst]; rewrite !keys_setIfAbsent; reflexivity.
Qed.

Lemma keys_fold typeDisplay nodeTypes triples m ls :
  map fst (fst (fold_left (buildStep typeDisplay nodeTypes) triples (m, ls))) =
  fold_left (keyStep typeDisplay) triples (map fst m).
Proof.
  revert m ls. induction triples as [|t triples IH]; intros m ls; cbn [fold_left];
    [reflexivity|].
  pose proof (keys_buildStep typeDisplay nodeTypes m ls t) as Hk.
  destruct (buildStep typeDisplay nodeTypes (m, ls) t) as [m' ls'].
  cbn [fst] in Hk. rewrite IH, Hk. reflexivity.
Qed.

Lemma projection_ids (typeDisplay : TypeDisplay) (triples : list N3.Triple) :
  map Node.id (nodes (triplesToGraph typeDisplay triples)) =
  fold_left (keyStep typeDisplay) triples [].
Proof.
  unfold triplesToGraph.
  set (nodeTypes := fold_left typeIndexStep triples ∅).
  pose proof (fold_buildInv typeDisplay nodeTypes triples) as [Hk _].
  pose proof (keys_fold typeDisplay nodeTypes triples [] []) as Hf.
  destruct (fold_left (buildStep typeDisplay nodeTypes) triples ([], [])) as [m ls].
  cbn [fst nodes] in *. rewrite (keyed_ids m Hk). exact Hf.
Qed.

Lemma addKey_prefix (k : string) (keys : list string) : keys `prefix_of` addKey k keys.
Proof.
  unfold addKey. destruct (existsb _ keys); [reflexivity | apply prefix_app_r; reflexivity].
Qed.

Lemma keyStep_prefix typeDisplay keys triple :
  keys `prefix_of` keyStep typeDisplay keys triple.
Proof.
  unfold keyStep. destruct (emitsLink typeDisplay triple).
  - etransitivity; apply addKey_prefix.
  - apply addKey_prefix.
Qed.

Lemma keyFold_prefix typeDisplay triples keys :
  keys `prefix_of` fold_left (keyStep typeDisplay) triples keys.
Proof.
  revert keys. induction triples as [|t triples IH]; intros keys; cbn [fold_left];
    [reflexivity|].
  etransitivity; [apply keyStep_prefix | apply IH].
Qed.

(** X23: statements appended to a document never disturb what was
    projected from the earlier ones: the node ids of the shorter document
    are the first node ids of the longer one, in the same order, and its
    links are the first links. *)
Theorem appended_statements_extend_the_graph (typeDisplay : TypeDisplay)
    (earlier appended : list N3.Triple) :
  map Node.id (nodes (triplesToGraph typeDisplay earlier))
    `prefix_of` map Node.id (nodes (triplesToGraph typeDisplay (earlier ++ appended))) /\
  links (triplesToGraph typeDisplay earlier)
    `prefix_of` links (triplesToGraph typeDisplay (earlier ++ appended)).
Proof.
  split.
  - rewrite !projection_ids, fold_left_app. apply keyFold_prefix.
  - rewrite !projection_links, flat_map_app. apply prefix_app_r. reflexivity.
Qed.

(** X24: the policies [Off] and [On] project the same structure: the same
    node ids in the same order and the same links; they differ only in the
    types the nodes carry. *)
Theorem off_and_on_same_structure (triples : list N3.Triple) :
  map Node.id (nodes (triplesToGraph Off triples)) =
    map Node.id (nodes (triplesToGraph On triples)) /\
  links (triplesToGraph Off triples) = links (triplesToGraph On triples).
Proof.
  split.
  - rewrite !projection_ids. generalize (@nil string).
    induction triples as [|t triples IH]; intros keys; [reflexivity|].
    cbn [fold_left]. rewrite IH. reflexivity.
  - rewrite !projection_links. reflexivity.
Qed.
